(** * energyderivatives: the CRR binomial lattice and the Monte Carlo engine

    A shallow embedding of
      - [src/energyderivatives/binomial_tree_options/__init__.py]
        (class [CRRBinomialTreeOption]) and
      - [src/energyderivatives/monte_carlo_options/__init__.py]
        (class [MonteCarloOption]),
    followed by the properties of the two pricing engines.

    Numbers.  The code computes on numpy [float64] scalars and arrays.  They
    are modelled by [npf]: a real number, or one of the three IEEE special
    values [+inf], [-inf], [nan].  Operations on the special values follow
    IEEE 754 as numpy implements it (division by zero yields an infinity or
    nan together with a warning, never an exception; nan is absorbing;
    comparisons with nan are false).  Operations on finite values are exact:
    rounding, overflow to infinity and the sign of zero are not modelled.

    Control.  Python exceptions are the [Raise] branch of [result]; arrays
    mutated in place are passed from one statement to the next. *)

From Stdlib Require Import String Reals Lra Lia ZArith List Bool.
Import ListNotations.

Set Implicit Arguments.

(* ================================================================== *)
(** ** Python values and exceptions *)

Module Py.

(** The built-in exceptions the two classes can raise. *)
Inductive exn : Type :=
| ZeroDivisionError
| IndexError
| TypeError
| ValueError.

Inductive result (A : Type) : Type :=
| Ok (a : A)
| Raise (e : exn).
Arguments Ok {A} a.
Arguments Raise {A} e.

Definition bind {A B : Type} (m : result A) (k : A -> result B) : result B :=
  match m with
  | Ok a => k a
  | Raise e => Raise e
  end.

(** [for x in xs: s = body(x, s)], stopping at the first exception. *)
Fixpoint for_ {X S : Type} (xs : list X) (body : X -> S -> result S) (s : S)
  : result S :=
  match xs with
  | [] => Ok s
  | x :: xs' => bind (body x s) (for_ xs' body)
  end.

(** [a[i]] for a non-negative index: [IndexError] out of range. *)
Definition getitem {A : Type} (a : list A) (i : nat) : result A :=
  match nth_error a i with
  | Some x => Ok x
  | None => Raise IndexError
  end.

Fixpoint update {A : Type} (a : list A) (i : nat) (x : A) : list A :=
  match a, i with
  | [], _ => []
  | _ :: a', O => x :: a'
  | y :: a', S i' => y :: update a' i' x
  end.

(** [a[i] = x] for a non-negative index: [IndexError] out of range. *)
Definition setitem {A : Type} (a : list A) (i : nat) (x : A) : result (list A) :=
  if Nat.ltb i (length a) then Ok (update a i x) else Raise IndexError.

End Py.

Notation "x <- m ;; k" := (Py.bind m (fun x => k))
  (at level 61, m at next level, right associativity).

(* ================================================================== *)
(** ** numpy: float64 scalars, arrays, reductions *)

Module Np.

Local Open Scope R_scope.

Inductive npf : Type :=
| Fin (x : R)
| PInf
| NInf
| NaN.

Definition is_finite (a : npf) : Prop :=
  match a with Fin _ => True | _ => False end.

(** The infinity of the sign of [x], and nan when [x] is zero. *)
Definition signed_inf (positive : bool) (x : R) : npf :=
  if Rlt_dec 0 x then (if positive then PInf else NInf)
  else if Rlt_dec x 0 then (if positive then NInf else PInf)
  else NaN.

Definition neg (a : npf) : npf :=
  match a with
  | Fin x => Fin (- x)
  | PInf => NInf
  | NInf => PInf
  | NaN => NaN
  end.

(** [a + b].  The sum of two numbers is the exact real sum: float64 rounds
    it, and overflows to an infinity beyond 1.8e308. *)
Definition add (a b : npf) : npf :=
  match a, b with
  | NaN, _ | _, NaN => NaN
  | Fin x, Fin y => Fin (x + y)
  | PInf, NInf | NInf, PInf => NaN
  | PInf, _ | _, PInf => PInf
  | NInf, _ | _, NInf => NInf
  end.

Definition sub (a b : npf) : npf := add a (neg b).

(** [a * b].  The product of two numbers is exact, as the sum is. *)
Definition mul (a b : npf) : npf :=
  match a, b with
  | NaN, _ | _, NaN => NaN
  | Fin x, Fin y => Fin (x * y)
  | PInf, Fin y => signed_inf true y
  | NInf, Fin y => signed_inf false y
  | Fin x, PInf => signed_inf true x
  | Fin x, NInf => signed_inf false x
  | PInf, PInf | NInf, NInf => PInf
  | PInf, NInf | NInf, PInf => NInf
  end.

(** [a / b] on float64: a zero divisor gives an infinity or nan. *)
Definition div (a b : npf) : npf :=
  match a, b with
  | NaN, _ | _, NaN => NaN
  | Fin x, Fin y => if Req_dec_T y 0 then signed_inf true x else Fin (x / y)
  | Fin _, _ => Fin 0
  | PInf, Fin y => if Rlt_dec y 0 then NInf else PInf
  | NInf, Fin y => if Rlt_dec y 0 then PInf else NInf
  | _, _ => NaN
  end.

Definition abs (a : npf) : npf :=
  match a with
  | Fin x => Fin (Rabs x)
  | PInf | NInf => PInf
  | NaN => NaN
  end.

(** [np.sqrt]: nan (with a warning) on a negative argument. *)
Definition sqrt (a : npf) : npf :=
  match a with
  | Fin x => if Rlt_dec x 0 then NaN else Fin (R_sqrt.sqrt x)
  | PInf => PInf
  | NInf | NaN => NaN
  end.

(** [np.exp].  Exact on numbers: the overflow of float64 to [+inf]
    (arguments above 709.78) and its underflow to 0 are not modelled; the
    infinite argument stands for them. *)
Definition exp (a : npf) : npf :=
  match a with
  | Fin x => Fin (Rtrigo_def.exp x)
  | PInf => PInf
  | NInf => Fin 0
  | NaN => NaN
  end.

(** [a ** k] for an integer exponent [k >= 0]; [x ** 0] is 1 for every
    [x], nan included.  Exact on numbers: no overflow, no underflow. *)
Definition pow (a : npf) (k : nat) : npf :=
  match k with
  | O => Fin 1
  | S _ =>
      match a with
      | Fin x => Fin (x ^ k)
      | PInf => PInf
      | NInf => if Nat.even k then PInf else NInf
      | NaN => NaN
      end
  end.

(** [a == b]. *)
Definition eqb (a b : npf) : bool :=
  match a, b with
  | Fin x, Fin y => if Req_dec_T x y then true else false
  | PInf, PInf | NInf, NInf => true
  | _, _ => false
  end.

(** [a < b]. *)
Definition ltb (a b : npf) : bool :=
  match a, b with
  | NaN, _ | _, NaN => false
  | Fin x, Fin y => if Rlt_dec x y then true else false
  | NInf, NInf | PInf, _ | _, NInf => false
  | _, _ => true
  end.

(** A Python [int] used as an operand of float arithmetic. *)
Definition of_Z (z : Z) : npf := Fin (IZR z).
Definition of_nat (n : nat) : npf := Fin (INR n).

(** One- and two-dimensional arrays. *)
Definition vec : Type := list npf.
Definition batch : Type := list (list npf).

(** [np.arange(0, n)]: the integers [0 .. n-1], none when [n <= 0].  The
    elements are never negative, so they are kept as [nat]. *)
Definition arange0 (n : Z) : list nat := seq 0 (Z.to_nat n).

(** [np.arange(n, -1, -1)]: the integers [n, n-1 .. 0], none when [n < 0]. *)
Definition arange_down (n : Z) : list nat := rev (seq 0 (Z.to_nat (n + 1)%Z)).

(** Element-wise product of two arrays of the same shape. *)
Definition mul2 (a b : vec) : vec :=
  map (fun xy => mul (fst xy) (snd xy)) (combine a b).

(** [np.sum] and [np.mean] of a one-dimensional array, summed from the
    left; exact on numbers (numpy sums pairwise, and rounds). *)
Definition sum (a : vec) : npf := fold_left add a (Fin 0).
Definition mean (a : vec) : npf := div (sum a) (of_nat (length a)).

(** The reductions of a two-dimensional array run over all its entries. *)
Definition mean2 (e : batch) : npf := mean (concat e).

(** [np.std(e)]: [sqrt(mean(abs(e - mean(e)) ** 2))], the population
    deviation (divisor n); exact on numbers. *)
Definition std2 (e : batch) : npf :=
  let m := mean2 e in
  sqrt (mean (map (fun x => pow (abs (sub x m)) 2) (concat e))).

(** [-e], [e - c] and [e / c] for a scalar [c]. *)
Definition neg2 (e : batch) : batch := map (map neg) e.
Definition sub2 (e : batch) (c : npf) : batch := map (map (fun x => sub x c)) e.
Definition div2 (e : batch) (c : npf) : batch := map (map (fun x => div x c)) e.

(** [np.concatenate((e1, e2))] along the first (paths) axis. *)
Definition concatenate (e1 e2 : batch) : batch := e1 ++ e2.

(** [np.zeros(n)]: [ValueError] for a negative dimension. *)
Definition zeros (n : Z) : Py.result vec :=
  if (n <? 0)%Z then Py.Raise Py.ValueError
  else Py.Ok (repeat (Fin 0) (Z.to_nat n)).

End Np.

Declare Scope npf_scope.
Delimit Scope npf_scope with npf.
Bind Scope npf_scope with Np.npf.
Infix "+" := Np.add : npf_scope.
Infix "-" := Np.sub : npf_scope.
Infix "*" := Np.mul : npf_scope.
Infix "/" := Np.div : npf_scope.
Notation "- x" := (Np.neg x) : npf_scope.
Infix "**" := Np.pow (at level 30, right associativity) : npf_scope.

Import Np.
Local Open Scope npf_scope.

(** Python's built-in [max(a, b)]: the first argument unless the second is
    strictly greater (so a nan in second position is never chosen). *)
Definition py_max (a b : npf) : npf := if Np.ltb a b then b else a.

(** [x / n] for a Python [float] and a Python [int]. *)
Definition py_truediv (x : npf) (n : Z) : Py.result npf :=
  if (n =? 0)%Z then Py.Raise Py.ZeroDivisionError else Py.Ok (x / of_Z n).

(** What [call()] and [put()] hand back: a float, an array, the diagnostic
    tuple of the Monte Carlo engine (kept abstract in [T]), or [None]. *)
Inductive py_value (T : Type) : Type :=
| PyFloat (x : npf)
| PyArray (a : vec)
| PyTuple (t : T)
| PyNone.
Arguments PyFloat {T} x.
Arguments PyArray {T} a.
Arguments PyTuple {T} t.
Arguments PyNone {T}.

(* ================================================================== *)
(** ** binomial_tree_options: class CRRBinomialTreeOption *)

Module CRRBinomialTreeOption.

Record instance : Type := mk
  { _S : npf; _K : npf; _t : npf; _r : npf; _b : npf; _sigma : npf;
    _n : Z; _type : string }.

(** [__init__] stores its arguments; nothing is checked. *)
Definition __init__ (S K t r b sigma : npf) (type : string) (n : Z)
  : Py.result instance :=
  Py.Ok {| _S := S; _K := K; _t := t; _r := r; _b := b; _sigma := sigma;
           _n := n; _type := type |}.

(** The inner statement of [_euro]:
    [OptionValue[i] = (p * OptionValue[i + 1] + (1 - p) * OptionValue[i]) * Df]. *)
Definition euro_node (Df p : npf) (i : nat) (OptionValue : vec) : Py.result vec :=
  hi <- Py.getitem OptionValue (i + 1) ;;
  lo <- Py.getitem OptionValue i ;;
  Py.setitem OptionValue i ((p * hi + (Fin 1 - p) * lo) * Df).

(** One pass of the outer loop of [_euro]: [for i in arange(0, j + 1)]. *)
Definition euro_step (Df p : npf) (j : nat) (OptionValue : vec) : Py.result vec :=
  Py.for_ (arange0 (Z.of_nat j + 1)) (euro_node Df p) OptionValue.

(** [for j in arange(0, n)[::-1]: ...; return OptionValue]. *)
Definition _euro (OptionValue : vec) (n : Z) (Df p : npf) : Py.result vec :=
  Py.for_ (rev (arange0 n)) (euro_step Df p) OptionValue.

(** [z * (S * u ** i * d ** abs(i - j) - K)], the exercise value that
    [_amer] compares with the continuation value at node [i] of step [j]. *)
Definition exercise (K d S u : npf) (z : Z) (j i : nat) : npf :=
  of_Z z * (S * u ** i * d ** Z.abs_nat (Z.of_nat i - Z.of_nat j) - K).

(** The inner statement of [_amer]. *)
Definition amer_node (Df p K d S u : npf) (z : Z) (j i : nat) (OptionValue : vec)
  : Py.result vec :=
  hi <- Py.getitem OptionValue (i + 1) ;;
  lo <- Py.getitem OptionValue i ;;
  Py.setitem OptionValue i
    (py_max (exercise K d S u z j i) ((p * hi + (Fin 1 - p) * lo) * Df)).

Definition amer_step (Df p K d S u : npf) (z : Z) (j : nat) (OptionValue : vec)
  : Py.result vec :=
  Py.for_ (arange0 (Z.of_nat j + 1)) (amer_node Df p K d S u z j) OptionValue.

Definition _amer (OptionValue : vec) (n : Z) (Df p K d S u : npf) (z : Z)
  : Py.result vec :=
  Py.for_ (rev (arange0 n)) (amer_step Df p K d S u z) OptionValue.

(** The local variables of [_calc_price], in the order of its statements,
    as functions of [self] and of [dt = self._t / n]. *)
Definition calc_u (self : instance) (dt : npf) : npf := Np.exp (_sigma self * Np.sqrt dt).
Definition calc_d (self : instance) (dt : npf) : npf := Fin 1 / calc_u self dt.
Definition calc_p (self : instance) (dt : npf) : npf :=
  (Np.exp (_b self * dt) - calc_d self dt) / (calc_u self dt - calc_d self dt).
Definition calc_Df (self : instance) (dt : npf) : npf := Np.exp (- _r self * dt).

(** [z * (S * u ** arange(0, n + 1) * d ** arange(n, -1, -1) - K)] followed
    by [(abs(OptionValue) + OptionValue) / 2]. *)
Definition intrinsic (self : instance) (z : Z) (n : Z) (u d : npf) : vec :=
  map (fun x => of_Z z * (x - _K self))
      (mul2 (map (fun k => _S self * u ** k) (arange0 (n + 1)))
            (map (fun k => d ** k) (arange_down n))).

Definition terminal (self : instance) (z : Z) (n : Z) (u d : npf) : vec :=
  map (fun x => (Np.abs x + x) / Fin 2) (intrinsic self z n u d).

Definition _calc_price (self : instance) (z : Z) (n : Z) (type : string)
  : Py.result (py_value unit) :=
  dt <- py_truediv (_t self) n ;;
  let u := calc_u self dt in
  let d := calc_d self dt in
  let p := calc_p self dt in
  let Df := calc_Df self dt in
  let OptionValue := terminal self z n u d in
  if String.eqb type "european" then
    a <- _euro OptionValue n Df p ;;
    x <- Py.getitem a 0 ;;
    Py.Ok (PyFloat x)
  else if String.eqb type "american" then
    a <- _amer OptionValue n Df p (_K self) d (_S self) u z ;;
    x <- Py.getitem a 0 ;;
    Py.Ok (PyFloat x)
  else Py.Ok PyNone.

Definition call (self : instance) : Py.result (py_value unit) :=
  _calc_price self 1 (_n self) (_type self).

Definition put (self : instance) : Py.result (py_value unit) :=
  _calc_price self (-1) (_n self) (_type self).

End CRRBinomialTreeOption.

(* ================================================================== *)
(** ** monte_carlo_options: class MonteCarloOption *)

Module MonteCarloOption.

(** What the engine writes: the lines of [print] and the warnings. *)
Inductive event : Type :=
| PrintHeader                                  (* "Monte Carlo Simulation Path:" *)
| PrintLoopNo                                  (* "Loop:  No" *)
| PrintLoop (i : nat) (estimate cumulative : npf)
| PrintNewline
| Warn (i : nat).                              (* "mc_loop i returned Inf." *)

(** A [Path] subclass is its [generate_path]; an instance holds the four
    fields that [Path.__init__] stores. *)
Record PathClass : Type :=
  { generate_path : batch -> npf -> npf -> npf -> batch }.

Record Path : Type := new_Path
  { path_class : PathClass;
    epsilon : batch; sigma : npf; dt : npf; b : npf }.

(** A [Payoff] subclass is its two methods, functions of the arguments of
    [Payoff.__init__]: the path instance and S, K, t, r, b, sigma. *)
Record PayoffClass : Type :=
  { payoff_call : Path -> npf -> npf -> npf -> npf -> npf -> npf -> vec;
    payoff_put : Path -> npf -> npf -> npf -> npf -> npf -> npf -> vec }.

(** The diagnostic tuple [(eps, path, payoff)]. *)
Definition diagnostic : Type := (batch * Path * vec)%type.

Section Engine.

(** The state of an [Innovations] instance (its generator, its stored
    [eps]): [sample_innovation] reads and advances it. *)
Variable G : Type.

Record Innovations : Type :=
  { new_Innovations : Z -> Z -> option batch -> G;
    sample_innovation : G -> batch * G }.

Record instance : Type := mk
  { _mc_loops : Z; _path_length : Z; _mc_paths : Z; _dt : npf;
    _S : npf; _K : npf; _t : npf; _r : npf; _b : npf; _sigma : npf;
    _Innovation : Innovations;
    _Path : option PathClass; _Payoff : option PayoffClass;
    _trace : bool; _antithetic : bool; _standardization : bool;
    _eps : option batch }.

(** The mutable surroundings of a run: the state of [self._Innovation]
    and everything printed or warned so far. *)
Record world : Type := mk_world { innovation : G; log : list event }.

Definition emit (w : world) (es : list event) : world :=
  {| innovation := innovation w; log := log w ++ es |}.

(** [__init__]: [t / path_length], then the call [Innovation(mc_paths,
    path_length, eps)]; [Path] and [Payoff] are stored as they come.
    The result is the object and the fresh state of its innovation
    instance. *)
Definition __init__ (mc_loops path_length mc_paths : Z)
    (S K t r b sigma : npf)
    (Innovation : option Innovations)
    (Path : option PathClass) (Payoff : option PayoffClass)
    (trace antithetic standardization : bool) (eps : option batch)
  : Py.result (instance * G) :=
  dt <- py_truediv t path_length ;;
  match Innovation with
  | None => Py.Raise Py.TypeError
  | Some cls =>
      Py.Ok ({| _mc_loops := mc_loops; _path_length := path_length;
                _mc_paths := mc_paths; _dt := dt;
                _S := S; _K := K; _t := t; _r := r; _b := b; _sigma := sigma;
                _Innovation := cls; _Path := Path; _Payoff := Payoff;
                _trace := trace; _antithetic := antithetic;
                _standardization := standardization; _eps := eps |},
             new_Innovations cls mc_paths path_length eps)
  end.

(** The first statements of the loop body: the draw, then the antithetic
    and the standardization transforms.  The result is the batch given to
    the [Path] constructor and the next state of the innovation instance. *)
Definition antithetic_variates (self : instance) (eps : batch) : batch :=
  if _antithetic self then concatenate eps (neg2 eps) else eps.

Definition standardize (self : instance) (eps : batch) : batch :=
  if _standardization self
  then div2 (sub2 eps (mean2 eps)) (std2 eps)
  else eps.

Definition draw (self : instance) (g : G) : batch * G :=
  let (eps, g') := sample_innovation (_Innovation self) g in
  (standardize self (antithetic_variates self eps), g').

(** How one pass of the loop ends: on to the next index with the updated
    [iteration] array, or [return] out of the function. *)
Inductive flow : Type :=
| Next (iteration : vec)
| Return (v : py_value diagnostic).

Definition loop_body (self : instance) (call : bool) (i : nat) (iteration : vec)
    (w : world) : Py.result flow * world :=
  let (eps, g') := draw self (innovation w) in
  let w := {| innovation := g'; log := log w |} in
  match _Path self with
  | None => (Py.Raise Py.TypeError, w)
  | Some P =>
      let path := new_Path P eps (_sigma self) (_dt self) (_b self) in
      match _Payoff self with
      | None => (Py.Raise Py.TypeError, w)
      | Some Y =>
          let payoff :=
            if call
            then payoff_call Y path (_S self) (_K self) (_t self)
                             (_r self) (_b self) (_sigma self)
            else payoff_put Y path (_S self) (_K self) (_t self)
                            (_r self) (_b self) (_sigma self) in
          let tmp := Np.mean payoff in
          if Np.eqb tmp PInf
          then (Py.Ok (Return (PyTuple (eps, path, payoff))), emit w [Warn i])
          else
            match Py.setitem iteration i tmp with
            | Py.Raise e => (Py.Raise e, w)
            | Py.Ok iteration' =>
                if _trace self
                then
                  match Py.getitem iteration' i with
                  | Py.Raise e => (Py.Raise e, w)
                  | Py.Ok x =>
                      (Py.Ok (Next iteration'),
                       emit w [PrintLoop i x
                                 (Np.sum iteration' / of_nat (i + 1))])
                  end
                else (Py.Ok (Next iteration'), w)
            end
      end
  end.

(** [for i in range(mc_loops)] over [loop_body]. *)
Fixpoint loop (self : instance) (call : bool) (indices : list nat)
    (iteration : vec) (w : world) : Py.result flow * world :=
  match indices with
  | [] => (Py.Ok (Next iteration), w)
  | i :: rest =>
      match loop_body self call i iteration w with
      | (Py.Ok (Next iteration'), w') => loop self call rest iteration' w'
      | stop => stop
      end
  end.

Definition _sim_mc (self : instance) (call : bool) (w : world)
  : Py.result (py_value diagnostic) * world :=
  let w := if _trace self then emit w [PrintHeader; PrintLoopNo] else w in
  match zeros (_mc_loops self) with
  | Py.Raise e => (Py.Raise e, w)
  | Py.Ok iteration =>
      match loop self call (arange0 (_mc_loops self)) iteration w with
      | (Py.Ok (Next iteration'), w') =>
          (Py.Ok (PyArray iteration'), emit w' [PrintNewline])
      | (Py.Ok (Return v), w') => (Py.Ok v, w')
      | (Py.Raise e, w') => (Py.Raise e, w')
      end
  end.

Definition call (self : instance) (w : world) := _sim_mc self true w.
Definition put (self : instance) (w : world) := _sim_mc self false w.

End Engine.

End MonteCarloOption.

(* ================================================================== *)
(** ** What one loop of a Monte Carlo run computes

    The values of the local variables of the loop body of [_sim_mc], as
    functions of the state [g] in which the loop finds the innovation
    instance. *)

Module Loop.

Import MonteCarloOption.

Section Values.

Context {G : Type}.
Variable self : instance G.

(** The freshly drawn batch, and the state the draw leaves behind. *)
Definition fresh (g : G) : batch :=
  fst (sample_innovation (_Innovation self) g).
Definition advance (g : G) : G :=
  snd (sample_innovation (_Innovation self) g).

(** The state at the start of loop [k] of a run started in [g]. *)
Definition state_at (k : nat) (g : G) : G := Nat.iter k advance g.

Definition eps (g : G) : batch := fst (draw self g).

Definition path (P : PathClass) (g : G) : Path :=
  new_Path P (eps g) (_sigma self) (_dt self) (_b self).

Definition payoff (call : bool) (P : PathClass) (Y : PayoffClass) (g : G) : vec :=
  if call
  then payoff_call Y (path P g) (_S self) (_K self) (_t self)
                   (_r self) (_b self) (_sigma self)
  else payoff_put Y (path P g) (_S self) (_K self) (_t self)
                  (_r self) (_b self) (_sigma self).

Definition tmp (call : bool) (P : PathClass) (Y : PayoffClass) (g : G) : npf :=
  Np.mean (payoff call P Y g).

(** What [_sim_mc] prints before its loop. *)
Definition header : list event :=
  if _trace self then [PrintHeader; PrintLoopNo] else [].

(** The same object with another [trace] flag. *)
Definition with_trace (trace : bool) : instance G :=
  {| _mc_loops := _mc_loops self; _path_length := _path_length self;
     _mc_paths := _mc_paths self; _dt := _dt self;
     _S := _S self; _K := _K self; _t := _t self; _r := _r self;
     _b := _b self; _sigma := _sigma self;
     _Innovation := _Innovation self;
     _Path := _Path self; _Payoff := _Payoff self;
     _trace := trace; _antithetic := _antithetic self;
     _standardization := _standardization self; _eps := _eps self |}.

End Values.

End Loop.

(* ================================================================== *)
(** ** A small set of capabilities to run the engine on *)

Module Demo.

Import MonteCarloOption.

(** An innovation source that returns the batch [e] at every call; its
    state counts the calls. *)
Definition fixed_innovations (e : batch) : Innovations nat :=
  {| new_Innovations := fun _ _ _ => 0%nat;
     sample_innovation := fun g => (e, S g) |}.

(** A path generator whose increments are the innovations. *)
Definition identity_path : PathClass :=
  {| generate_path := fun eps _ _ _ => eps |}.

(** A payoff evaluator whose payoff, call or put, is the sum of the
    increments of each path. *)
Definition row_sums : PayoffClass :=
  {| payoff_call := fun path _ _ _ _ _ _ =>
       map Np.sum (generate_path (path_class path) (epsilon path)
                                 (sigma path) (dt path) (b path));
     payoff_put := fun path _ _ _ _ _ _ =>
       map Np.sum (generate_path (path_class path) (epsilon path)
                                 (sigma path) (dt path) (b path)) |}.

Definition engine (e : batch) (mc_loops : Z) (antithetic standardization : bool)
  : instance nat :=
  {| _mc_loops := mc_loops; _path_length := 1; _mc_paths := 1; _dt := Fin 1;
     _S := Fin 100; _K := Fin 100; _t := Fin 1; _r := Fin 0; _b := Fin 0;
     _sigma := Fin 1;
     _Innovation := fixed_innovations e;
     _Path := Some identity_path; _Payoff := Some row_sums;
     _trace := false; _antithetic := antithetic;
     _standardization := standardization; _eps := None |}.

Definition start : world nat := {| innovation := 0%nat; log := [] |}.

(** A payoff evaluator whose payoff, call or put, is [+inf] on every path
    set: a loop that uses it returns the diagnostic tuple, which holds the
    innovation batch the loop handed to the path generator. *)
Definition infinite_payoff : PayoffClass :=
  {| payoff_call := fun _ _ _ _ _ _ _ => [PInf];
     payoff_put := fun _ _ _ _ _ _ _ => [PInf] |}.

Definition diagnostic_engine (e : batch) (mc_loops : Z)
    (antithetic standardization : bool) : instance nat :=
  {| _mc_loops := mc_loops; _path_length := 1; _mc_paths := 1; _dt := Fin 1;
     _S := Fin 100; _K := Fin 100; _t := Fin 1; _r := Fin 0; _b := Fin 0;
     _sigma := Fin 1;
     _Innovation := fixed_innovations e;
     _Path := Some identity_path; _Payoff := Some infinite_payoff;
     _trace := false; _antithetic := antithetic;
     _standardization := standardization; _eps := None |}.

End Demo.

(* ================================================================== *)
(** ** What a completed run returns and prints *)

Module Report.

Import MonteCarloOption Loop.

Section Values.

Context {G : Type}.
Variable self : instance G.
Variable call : bool.
Variable P : PathClass.
Variable Y : PayoffClass.

(** The mean payoffs of the first [m] loops of a run started in [g]. *)
Definition estimates (m : nat) (g : G) : vec :=
  map (fun i => tmp self call P Y (state_at self i g)) (seq 0 m).

(** The lines a traced run prints for its first [m] loops: the index, the
    estimate of the loop, and the mean of the estimates so far. *)
Definition trace_lines (m : nat) (g : G) : list event :=
  map (fun i => PrintLoop i (tmp self call P Y (state_at self i g))
                          (Np.mean (estimates (i + 1) g)))
      (seq 0 m).

End Values.

End Report.

Module CRR := CRRBinomialTreeOption.
Module MC := MonteCarloOption.

(* ================================================================== *)
(** ** The lattice as the specification words it

    A second definition of the European lattice, following the algorithm of
    the specification: a value vector indexed by node, of length [j + 1] at
    backward step [j], shrinking by one each step from [n + 1] to [1]. *)

Module LatticeSpec.

(** [np.maximum(x, y)]: the larger argument, nan if either is nan. *)
Definition maximum (x y : npf) : npf :=
  match x, y with
  | NaN, _ | _, NaN => NaN
  | _, _ => if Np.ltb x y then y else x
  end.

Record params : Type :=
  { dt : npf; u : npf; d : npf; p : npf; discount : npf }.


(** Step 2: payoff[i] = max(z (S u^i d^(n-i) - K), 0) for i = 0..n. *)
Definition payoff (S K : npf) (z : Z) (n : nat) (q : params) : vec :=
  map (fun i => maximum (of_Z z * (S * u q ** i * d q ** (n - i) - K)) (Fin 0))
      (seq 0 (n + 1)).



End LatticeSpec.

(* ================================================================== *)
(** ** The loops of the lattice, as functions on arrays *)

(** The shape shared by the inner statements of [_euro] and [_amer]: node
    [i] of [a] is overwritten by [f i a[i] a[i+1]]. *)
Definition node (f : nat -> npf -> npf -> npf) (i : nat) (a : vec) : Py.result vec :=
  hi <- Py.getitem a (i + 1) ;;
  lo <- Py.getitem a i ;;
  Py.setitem a i (f i lo hi).

(** The array after an inner loop over the [m] nodes [i, i+1, ...]. *)
Fixpoint sweep (f : nat -> npf -> npf -> npf) (i m : nat) (a : vec) : vec :=
  match m, a with
  | S m', lo :: (hi :: _) as rest => f i lo hi :: sweep f (S i) m' rest
  | _, _ => a
  end.

(** The array after the outer loop [j = n-1, ..., 0] over [g j]. *)
Fixpoint descend (g : nat -> vec -> vec) (n : nat) (a : vec) : vec :=
  match n with
  | O => a
  | S j => descend g j (g j a)
  end.

(** The continuation value of a node, as both loops compute it. *)
Definition continuation (Df p lo hi : npf) : npf :=
  (p * hi + (Fin 1 - p) * lo) * Df.

(** The array after pass [j] of [_euro] and of [_amer]. *)
Definition euro_pass (Df p : npf) (j : nat) (a : vec) : vec :=
  sweep (fun _ => continuation Df p) 0 (j + 1) a.

Definition amer_pass (Df p K d S u : npf) (z : Z) (j : nat) (a : vec) : vec :=
  sweep (fun i lo hi =>
           py_max (CRRBinomialTreeOption.exercise K d S u z j i)
                  (continuation Df p lo hi))
        0 (j + 1) a.

(** A float that is a non-negative number or nan. *)
Definition nonneg_or_nan (x : npf) : Prop :=
  match x with Fin v => (0 <= v)%R | NaN => True | _ => False end.

(** The value the specification gives a lattice with sigma = 0: the
    intrinsic value at the forward price S exp(b t), discounted by exp(-r t). *)
Definition discounted_forward_intrinsic (z : Z) (S K t r b : npf) : npf :=
  Np.exp (- (r * t)) * LatticeSpec.maximum (of_Z z * (S * Np.exp (b * t) - K)) (Fin 0).

(** [a <= b] between floats that are both numbers. *)
Definition fle (a b : npf) : Prop :=
  match a, b with Fin x, Fin y => (x <= y)%R | _, _ => False end.

(** The arrays an outer loop over [g] goes through, from the array [a0] it
    is given (step [n]) down to the one it returns (step [0]). *)
Inductive after_pass (g : nat -> vec -> vec) (n : nat) (a0 : vec)
  : nat -> vec -> Prop :=
| pass_none : after_pass g n a0 n a0
| pass_next (j : nat) (a : vec) :
    after_pass g n a0 (S j) a -> after_pass g n a0 j (g j a).

(** The lattice object built from numbers. *)
Definition lattice (S K t r b sigma : R) (n : Z) (type : string)
  : CRRBinomialTreeOption.instance :=
  CRRBinomialTreeOption.mk (Fin S) (Fin K) (Fin t) (Fin r) (Fin b) (Fin sigma) n type.

(** The moments of a finite sample of real numbers, as [np.mean] and
    [np.std] define them (population standard deviation). *)
Definition Rsum (l : list R) : R := fold_left Rplus l 0%R.
Definition Rmean (l : list R) : R := (Rsum l / INR (length l))%R.
Definition Rstd (l : list R) : R :=
  R_sqrt.sqrt (Rmean (map (fun x => (Rabs (x - Rmean l) ^ 2)%R) l)).






(** A float that is a number or nan: never an infinity. *)
Definition fin_or_nan (x : npf) : Prop :=
  match x with Fin _ | NaN => True | _ => False end.

(* ================================================================== *)
(** ** Arrays updated in place *)

Section InPlace.

Context {A : Type}.

Lemma length_update (a : list A) (i : nat) (x : A) :
  length (Py.update a i x) = length a.
Proof.
  revert i; induction a as [|y a IH]; intros [|i]; simpl; auto.
Qed.

Lemma update_app (pre : list A) (y : A) (rest : list A) (x : A) :
  Py.update (pre ++ y :: rest) (length pre) x = pre ++ x :: rest.
Proof.
  induction pre as [|z pre IH]; simpl; [reflexivity|now rewrite IH].
Qed.

Lemma getitem_app (pre : list A) (y : A) (rest : list A) :
  Py.getitem (pre ++ y :: rest) (length pre) = Py.Ok y.
Proof.
  unfold Py.getitem. rewrite nth_error_app2 by lia.
  now rewrite Nat.sub_diag.
Qed.

Lemma setitem_app (pre : list A) (y : A) (rest : list A) (x : A) :
  Py.setitem (pre ++ y :: rest) (length pre) x = Py.Ok (pre ++ x :: rest).
Proof.
  unfold Py.setitem.
  replace (length pre <? length (pre ++ y :: rest))%nat with true.
  - now rewrite update_app.
  - symmetry. apply Nat.ltb_lt. rewrite length_app. simpl. lia.
Qed.

Lemma nth_error_update_same (a : list A) (i : nat) (x : A) :
  (i < length a)%nat -> nth_error (Py.update a i x) i = Some x.
Proof.
  revert i; induction a as [|y a IH]; intros [|i] H; simpl in *;
    try lia; auto. apply IH. lia.
Qed.

Lemma nth_error_update_other (a : list A) (i k : nat) (x : A) :
  i <> k -> nth_error (Py.update a i x) k = nth_error a k.
Proof.
  revert i k; induction a as [|y a IH]; intros [|i] [|k] H; simpl;
    try congruence; auto.
Qed.

End InPlace.

Section Sweep.

Variable f : nat -> npf -> npf -> npf.

Lemma length_sweep (m i : nat) (a : vec) : length (sweep f i m a) = length a.
Proof.
  revert i a; induction m as [|m IH]; intros i [|lo [|hi a]]; simpl; auto.
Qed.

Lemma node_app (pre : vec) (lo hi : npf) (a : vec) :
  node f (length pre) (pre ++ lo :: hi :: a)
  = Py.Ok (pre ++ f (length pre) lo hi :: hi :: a).
Proof.
  unfold node.
  assert (E : Py.getitem (pre ++ lo :: hi :: a) (length pre + 1) = Py.Ok hi).
  { replace (pre ++ lo :: hi :: a) with ((pre ++ [lo]) ++ hi :: a)
      by (rewrite <- app_assoc; reflexivity).
    replace (length pre + 1)%nat with (length (pre ++ [lo]))
      by (rewrite length_app; reflexivity).
    apply getitem_app. }
  rewrite E. cbn [Py.bind].
  rewrite getitem_app. cbn [Py.bind].
  apply setitem_app.
Qed.

Lemma for_node (m : nat) (pre a : vec) :
  (m < length a)%nat ->
  Py.for_ (seq (length pre) m) (node f) (pre ++ a)
  = Py.Ok (pre ++ sweep f (length pre) m a).
Proof.
  revert pre a; induction m as [|m IH]; intros pre a H.
  - destruct a; reflexivity.
  - destruct a as [|lo [|hi a]]; simpl in H; try lia.
    cbn [seq Py.for_]. rewrite node_app. cbn [Py.bind].
    specialize (IH (pre ++ [f (length pre) lo hi]) (hi :: a)).
    rewrite length_app, <- app_assoc in IH. simpl in IH.
    replace (length pre + 1)%nat with (S (length pre)) in IH by lia.
    rewrite IH by lia. rewrite <- app_assoc. reflexivity.
Qed.

Lemma for_node0 (m : nat) (a : vec) :
  (m < length a)%nat -> Py.for_ (seq 0 m) (node f) a = Py.Ok (sweep f 0 m a).
Proof. intros H. exact (@for_node m [] a H). Qed.

End Sweep.

Lemma length_descend (g : nat -> vec -> vec) (n : nat) (a : vec) :
  (forall j x, length (g j x) = length x) -> length (descend g n a) = length a.
Proof.
  intros Hg. revert a; induction n as [|n IH]; intros a; simpl; auto.
  now rewrite IH, Hg.
Qed.

(** The outer loop: when every pass [j < n] succeeds on arrays of the
    length at hand, the loop returns [descend]. *)
Lemma for_descend (body : nat -> vec -> Py.result vec) (g : nat -> vec -> vec)
    (L n : nat) (a : vec) :
  (forall j x, length (g j x) = length x) ->
  (forall j x, (j < n)%nat -> length x = L -> body j x = Py.Ok (g j x)) ->
  length a = L ->
  Py.for_ (rev (seq 0 n)) body a = Py.Ok (descend g n a).
Proof.
  intros Hg. revert a; induction n as [|n IH]; intros a Hb Ha.
  - reflexivity.
  - rewrite seq_S, rev_app_distr. cbn [rev app Py.for_ Nat.add].
    rewrite Hb by (auto; lia). cbn [Py.bind descend].
    apply IH.
    + intros j x Hj Hx. apply Hb; auto.
    + now rewrite Hg.
Qed.

Lemma arange0_succ (j : nat) : arange0 (Z.of_nat j + 1) = seq 0 (j + 1).
Proof. unfold arange0. f_equal. lia. Qed.

Lemma arange0_nat (n : nat) : arange0 (Z.of_nat n) = seq 0 n.
Proof. unfold arange0. f_equal. lia. Qed.

(* ================================================================== *)
(** ** The loops of [_euro] and [_amer] *)

Module LatticeLoops.

Import CRRBinomialTreeOption.

Lemma euro_step_ok (Df p : npf) (j : nat) (a : vec) :
  (j + 1 < length a)%nat -> euro_step Df p j a = Py.Ok (euro_pass Df p j a).
Proof.
  intros H. unfold euro_step, euro_pass. rewrite arange0_succ.
  change (euro_node Df p) with (node (fun _ : nat => continuation Df p)).
  now apply for_node0.
Qed.

Lemma amer_step_ok (Df p K d S u : npf) (z : Z) (j : nat) (a : vec) :
  (j + 1 < length a)%nat ->
  amer_step Df p K d S u z j a = Py.Ok (amer_pass Df p K d S u z j a).
Proof.
  intros H. unfold amer_step, amer_pass. rewrite arange0_succ.
  change (amer_node Df p K d S u z j)
    with (node (fun i lo hi => py_max (exercise K d S u z j i)
                                      (continuation Df p lo hi))).
  now apply for_node0.
Qed.

Lemma length_euro_pass (Df p : npf) (j : nat) (a : vec) :
  length (euro_pass Df p j a) = length a.
Proof. apply length_sweep. Qed.

Lemma length_amer_pass (Df p K d S u : npf) (z : Z) (j : nat) (a : vec) :
  length (amer_pass Df p K d S u z j a) = length a.
Proof. apply length_sweep. Qed.

(** [_euro] never raises on an array longer than [n], and returns the
    array after the passes [n-1, ..., 0]. *)
Lemma _euro_ok (Df p : npf) (n : nat) (a : vec) :
  (n < length a)%nat ->
  _euro a (Z.of_nat n) Df p = Py.Ok (descend (euro_pass Df p) n a).
Proof.
  intros H. unfold _euro. rewrite arange0_nat.
  apply for_descend with (L := length a); auto.
  - intros; apply length_euro_pass.
  - intros j x Hj Hx. apply euro_step_ok. lia.
Qed.

Lemma _amer_ok (Df p K d S u : npf) (z : Z) (n : nat) (a : vec) :
  (n < length a)%nat ->
  _amer a (Z.of_nat n) Df p K d S u z
  = Py.Ok (descend (amer_pass Df p K d S u z) n a).
Proof.
  intros H. unfold _amer. rewrite arange0_nat.
  apply for_descend with (L := length a); auto.
  - intros; apply length_amer_pass.
  - intros j x Hj Hx. apply amer_step_ok. lia.
Qed.

Lemma length_intrinsic (self : instance) (z : Z) (n : nat) (u d : npf) :
  length (intrinsic self z (Z.of_nat n) u d) = S n.
Proof.
  unfold intrinsic, mul2, arange0, arange_down.
  rewrite !length_map, length_combine, !length_map, length_rev, !length_seq.
  lia.
Qed.

Lemma length_terminal (self : instance) (z : Z) (n : nat) (u d : npf) :
  length (terminal self z (Z.of_nat n) u d) = S n.
Proof. unfold terminal. rewrite length_map. apply length_intrinsic. Qed.

(** [_calc_price] past its first statement and its dispatch on [type]. *)
Lemma _calc_price_european (self : instance) (z n : Z) :
  n <> 0%Z ->
  _calc_price self z n "european"
  = (let dt := (_t self / of_Z n)%npf in
     a <- _euro (terminal self z n (calc_u self dt) (calc_d self dt)) n
                (calc_Df self dt) (calc_p self dt) ;;
     x <- Py.getitem a 0 ;;
     Py.Ok (PyFloat x)).
Proof.
  intros Hn. unfold _calc_price, py_truediv.
  destruct (Z.eqb_spec n 0) as [E|_]; [contradiction|]. reflexivity.
Qed.

Lemma _calc_price_american (self : instance) (z n : Z) :
  n <> 0%Z ->
  _calc_price self z n "american"
  = (let dt := (_t self / of_Z n)%npf in
     a <- _amer (terminal self z n (calc_u self dt) (calc_d self dt)) n
                (calc_Df self dt) (calc_p self dt)
                (_K self) (calc_d self dt) (_S self) (calc_u self dt) z ;;
     x <- Py.getitem a 0 ;;
     Py.Ok (PyFloat x)).
Proof.
  intros Hn. unfold _calc_price, py_truediv.
  destruct (Z.eqb_spec n 0) as [E|_]; [contradiction|]. reflexivity.
Qed.

End LatticeLoops.

(* ================================================================== *)
(** ** Facts of float arithmetic *)

Module NpFacts.

Local Open Scope R_scope.


Lemma fin_or_nan_add (a b : npf) :
  fin_or_nan a -> fin_or_nan b -> fin_or_nan (a + b)%npf.
Proof. destruct a, b; simpl; tauto. Qed.

Lemma fin_or_nan_neg (a : npf) : fin_or_nan a -> fin_or_nan (- a)%npf.
Proof. destruct a; simpl; tauto. Qed.

Lemma fin_or_nan_sub (a b : npf) :
  fin_or_nan a -> fin_or_nan b -> fin_or_nan (a - b)%npf.
Proof. intros; apply fin_or_nan_add; auto using fin_or_nan_neg. Qed.

Lemma fin_or_nan_mul (a b : npf) :
  fin_or_nan a -> fin_or_nan b -> fin_or_nan (a * b)%npf.
Proof. destruct a, b; simpl; tauto. Qed.

Lemma fin_or_nan_pow (a : npf) (k : nat) : fin_or_nan a -> fin_or_nan (a ** k)%npf.
Proof. destruct k, a; simpl; tauto. Qed.

Lemma fin_or_nan_sqrt (x : R) : fin_or_nan (Np.sqrt (Fin x)).
Proof. simpl. destruct (Rlt_dec x 0); exact I. Qed.


Lemma positive_part_nonneg (x : npf) :
  fin_or_nan x -> nonneg_or_nan ((Np.abs x + x) / Fin 2)%npf.
Proof.
  destruct x as [v| | |]; simpl; try tauto. intros _.
  destruct (Req_dec_T 2 0) as [E|_]; [lra|]. simpl.
  pose proof (Rabs_pos v). pose proof (Rle_abs (- v)).
  rewrite Rabs_Ropp in *. lra.
Qed.

(** A risk-neutral probability that is not a number poisons the
    continuation value of every node. *)
Lemma continuation_bad_p (Df p lo hi : npf) :
  ~ is_finite p -> nonneg_or_nan lo -> nonneg_or_nan hi ->
  continuation Df p lo hi = NaN.
Proof.
  unfold continuation.
  destruct p as [v| | |]; simpl; try tauto; intros _;
    destruct lo as [l| | |], hi as [h| | |]; simpl; try tauto; intros Hl Hh;
    unfold signed_inf;
    repeat (match goal with
            | |- context [Rlt_dec ?a ?b] => destruct (Rlt_dec a b); try lra
            end; simpl); reflexivity.
Qed.

(** Division by zero never gives a number. *)
Lemma div_zero_not_finite (a : npf) : ~ is_finite (a / Fin 0)%npf.
Proof.
  destruct a as [v| | |]; simpl; auto.
  - destruct (Req_dec_T 0 0); [|lra]. unfold signed_inf.
    destruct (Rlt_dec 0 v); simpl; auto.
    destruct (Rlt_dec v 0); simpl; auto.
  - destruct (Rlt_dec 0 0); simpl; auto.
  - destruct (Rlt_dec 0 0); simpl; auto.
Qed.

Lemma continuation_nan_lo (Df p hi : npf) : continuation Df p NaN hi = NaN.
Proof.
  unfold continuation.
  destruct (p * hi)%npf, (Fin 1 - p)%npf; reflexivity.
Qed.

End NpFacts.

(* ================================================================== *)
(** ** The lattice with zero volatility *)

Module ZeroVolatility.

Import CRRBinomialTreeOption NpFacts LatticeLoops.
Local Open Scope R_scope.

Section Sigma0.

Variable self : instance.
Hypothesis sigma0 : _sigma self = Fin 0.

(** With sigma = 0 the up factor is exp(0) = 1, or nan when dt < 0. *)
Lemma u_one_or_nan (x : R) :
  calc_u self (Fin x) = Fin 1 \/ calc_u self (Fin x) = NaN.
Proof.
  unfold calc_u. rewrite sigma0. simpl.
  destruct (Rlt_dec x 0); simpl; auto.
  left. f_equal. rewrite Rmult_0_l. apply exp_0.
Qed.

Lemma d_one_or_nan (x : R) :
  (calc_u self (Fin x) = Fin 1 /\ calc_d self (Fin x) = Fin 1) \/
  (calc_u self (Fin x) = NaN /\ calc_d self (Fin x) = NaN).
Proof.
  unfold calc_d. destruct (u_one_or_nan x) as [E|E]; rewrite E; [left|right];
    split; auto. simpl.
  destruct (Req_dec_T 1 0); [lra|]. f_equal. field.
Qed.

(** The divisor [u - d] of the risk-neutral probability is 0 or nan, and
    the quotient is never a number. *)
Lemma p_not_finite (x : R) : ~ is_finite (calc_p self (Fin x)).
Proof.
  unfold calc_p.
  destruct (d_one_or_nan x) as [[Eu Ed]|[Eu Ed]]; rewrite Eu, Ed.
  - replace (Fin 1 - Fin 1)%npf with (Fin 0) by (simpl; f_equal; ring).
    apply div_zero_not_finite.
  - destruct (Np.exp (_b self * Fin x) - NaN)%npf; simpl; auto.
Qed.

Lemma u_d_sigma0_fin_or_nan (x : R) :
  fin_or_nan (calc_u self (Fin x)) /\ fin_or_nan (calc_d self (Fin x)).
Proof.
  destruct (d_one_or_nan x) as [[Eu Ed]|[Eu Ed]]; rewrite Eu, Ed; simpl; auto.
Qed.

End Sigma0.

(** Every terminal payoff is a non-negative number or nan when S and K
    are numbers and u, d are numbers or nan. *)
Lemma intrinsic_fin_or_nan (self : instance) (z n : Z) (u d : npf) :
  fin_or_nan (_S self) -> fin_or_nan (_K self) -> fin_or_nan u -> fin_or_nan d ->
  Forall fin_or_nan (intrinsic self z n u d).
Proof.
  intros HS HK Hu Hd. unfold intrinsic, mul2.
  rewrite Forall_map, Forall_map. apply Forall_forall.
  intros [a c] Hin. cbn [fst snd].
  apply in_combine_l in Hin as Ha. apply in_combine_r in Hin as Hc.
  apply in_map_iff in Ha as [k [<- _]]. apply in_map_iff in Hc as [k' [<- _]].
  apply fin_or_nan_mul; [exact I|].
  apply fin_or_nan_sub; auto.
  repeat apply fin_or_nan_mul; auto using fin_or_nan_pow.
Qed.

Lemma terminal_nonneg_or_nan (self : instance) (z n : Z) (u d : npf) :
  fin_or_nan (_S self) -> fin_or_nan (_K self) -> fin_or_nan u -> fin_or_nan d ->
  Forall nonneg_or_nan (terminal self z n u d).
Proof.
  intros HS HK Hu Hd. unfold terminal. rewrite Forall_map.
  eapply Forall_impl; [|apply intrinsic_fin_or_nan; eauto].
  intros x Hx. now apply positive_part_nonneg.
Qed.

(** Once node 0 holds nan it holds nan after every later pass. *)
Lemma euro_pass_nan_head (Df p : npf) (j : nat) (a : vec) :
  hd_error a = Some NaN -> hd_error (euro_pass Df p j a) = Some NaN.
Proof.
  unfold euro_pass. rewrite Nat.add_1_r.
  destruct a as [|lo [|hi a]]; simpl; auto.
  intros [= ->]. now rewrite continuation_nan_lo.
Qed.

Lemma descend_nan_head (Df p : npf) (n : nat) (a : vec) :
  hd_error a = Some NaN -> hd_error (descend (euro_pass Df p) n a) = Some NaN.
Proof.
  revert a; induction n as [|n IH]; intros a H; simpl; auto.
  apply IH. now apply euro_pass_nan_head.
Qed.

(** The first pass writes nan into node 0 when p is not a number. *)
Lemma euro_pass_bad_p (Df p : npf) (j : nat) (a : vec) :
  ~ is_finite p -> Forall nonneg_or_nan a -> (2 <= length a)%nat ->
  hd_error (euro_pass Df p j a) = Some NaN.
Proof.
  intros Hp Ha Hlen. unfold euro_pass. rewrite Nat.add_1_r.
  destruct a as [|lo [|hi a]]; simpl in *; try lia.
  inversion Ha as [|? ? Hlo Ha']; subst. inversion Ha' as [|? ? Hhi _]; subst.
  now rewrite continuation_bad_p.
Qed.

(** The European price of a lattice with sigma = 0 and numbers for the
    other parameters is nan, for both sides and every [n >= 1]. *)
Lemma european_price_nan (S K t r b : R) (z n : Z) :
  (1 <= n)%Z ->
  _calc_price (mk (Fin S) (Fin K) (Fin t) (Fin r) (Fin b) (Fin 0) n "european")
              z n "european"
  = Py.Ok (PyFloat NaN).
Proof.
  intros Hn. set (self := mk _ _ _ _ _ _ _ _).
  rewrite _calc_price_european by lia. cbv zeta.
  change (_t self / of_Z n)%npf with (Fin t / Fin (IZR n))%npf.
  assert (Hdt : exists x, (Fin t / Fin (IZR n))%npf = Fin x).
  { simpl. destruct (Req_dec_T (IZR n) 0) as [E|_]; [|eauto].
    apply eq_IZR_R0 in E. lia. }
  destruct Hdt as [x ->].
  set (m := Z.to_nat n). assert (Hm : (1 <= m)%nat) by lia.
  assert (En : n = Z.of_nat m) by lia. clearbody m. rewrite En.
  rewrite _euro_ok by (rewrite length_terminal; lia). cbn [Py.bind].
  destruct m as [|m]; [lia|]. cbn [descend].
  unfold Py.getitem. change (nth_error ?l 0) with (hd_error l).
  rewrite descend_nan_head; [reflexivity|].
  destruct (u_d_sigma0_fin_or_nan self eq_refl x) as [Hu Hd].
  apply euro_pass_bad_p.
  - now apply p_not_finite.
  - apply terminal_nonneg_or_nan; simpl; auto.
  - rewrite length_terminal. lia.
Qed.

End ZeroVolatility.

(* ================================================================== *)
(** ** The European loop against the specified algorithm *)

Module EuropeanRefinement.

Import CRRBinomialTreeOption NpFacts LatticeLoops.
Local Open Scope R_scope.










Lemma dt_finite (t : R) (n : Z) :
  n <> 0%Z -> exists x, (Fin t / of_Z n)%npf = Fin x.
Proof.
  intros Hn. simpl. destruct (Req_dec_T (IZR n) 0) as [E|_]; [|eauto].
  apply eq_IZR_R0 in E. lia.
Qed.


End EuropeanRefinement.

(* ================================================================== *)
(** ** Invariants of the backward induction *)

Module Induction.

Import CRRBinomialTreeOption NpFacts LatticeLoops.
Local Open Scope R_scope.

(** *** Sweeps preserve pointwise properties and relations *)




(** Node [i] of a sweep over nodes [0..m-1] holds [f i] of the two old
    values; nodes from [m] on are untouched. *)
Lemma nth_error_sweep (f : nat -> npf -> npf -> npf) (m k i : nat) (a : vec) :
  (i < m)%nat -> (m < length a)%nat ->
  exists lo hi,
    nth_error a i = Some lo /\ nth_error a (S i) = Some hi /\
    nth_error (sweep f k m a) i = Some (f (k + i)%nat lo hi).
Proof.
  revert k i a; induction m as [|m IH]; intros k i a Hi Hm; [lia|].
  destruct a as [|lo [|hi a]]; simpl in Hm; try lia.
  destruct i as [|i].
  - exists lo, hi. rewrite Nat.add_0_r. repeat split.
  - destruct (IH (S k) i (hi :: a)) as (lo' & hi' & E1 & E2 & E3);
      [lia|simpl; lia|].
    exists lo', hi'. repeat split; auto.
    cbn [sweep nth_error]. rewrite E3. do 2 f_equal. lia.
Qed.

(** *** The reachable arrays *)

Lemma after_pass_descend (g : nat -> vec -> vec) (n : nat) (a0 : vec) (j : nat) (a : vec) :
  after_pass g n a0 j a -> descend g j a = descend g n a0.
Proof. induction 1; simpl in *; auto. Qed.

Lemma after_pass_le (g : nat -> vec -> vec) (n : nat) (a0 : vec) (j : nat) (a : vec) :
  after_pass g n a0 j a -> (j <= n)%nat.
Proof. induction 1; lia. Qed.

Lemma after_pass_reaches (g : nat -> vec -> vec) (n : nat) (a0 : vec) (j : nat) :
  (j <= n)%nat -> exists a, after_pass g n a0 j a.
Proof.
  intros H. replace j with (n - (n - j))%nat by lia.
  assert (Hk : (n - j <= n)%nat) by lia. revert Hk.
  generalize (n - j)%nat as k. clear j H.
  induction k as [|k IH]; intros Hk.
  - rewrite Nat.sub_0_r. eexists; constructor.
  - destruct IH as [a Ha]; [lia|].
    replace (n - k)%nat with (S (n - S k)) in Ha by lia.
    eexists. constructor. eassumption.
Qed.

End Induction.

(* ================================================================== *)
(** ** Finite lattices: probability in [0,1], non-negative discount *)

Module FiniteLattice.

Import CRRBinomialTreeOption NpFacts LatticeLoops Induction.
Local Open Scope R_scope.

Lemma pow_fin (x : R) (k : nat) : (Fin x ** k)%npf = Fin (x ^ k).
Proof. destruct k; reflexivity. Qed.


Lemma fle_refl (x : npf) : is_finite x -> fle x x.
Proof. destruct x; simpl; try tauto. intros _; lra. Qed.




Section Node.

Variables D pv : R.
Hypothesis HD : 0 <= D.
Hypothesis Hp : 0 <= pv <= 1.



Variables K d S u : R.
Variable z : Z.






End Node.

End FiniteLattice.

(* ================================================================== *)
(** ** Prices of a lattice whose risk-neutral probability is in [0,1] *)

Module WellPosed.

Import CRRBinomialTreeOption NpFacts LatticeLoops Induction FiniteLattice.
Local Open Scope R_scope.


Lemma intrinsic_finite (self : instance) (z n : Z) (S K u d : R) :
  _S self = Fin S -> _K self = Fin K ->
  Forall is_finite (intrinsic self z n (Fin u) (Fin d)).
Proof.
  intros HS HK. unfold intrinsic, mul2.
  rewrite Forall_map, Forall_map. apply Forall_forall.
  intros [a c] Hin. cbn [fst snd].
  apply in_combine_l in Hin as Ha. apply in_combine_r in Hin as Hc.
  apply in_map_iff in Ha as [k [<- _]]. apply in_map_iff in Hc as [k' [<- _]].
  rewrite HS, HK, !pow_fin. exact I.
Qed.

Lemma positive_part_fle (x : npf) :
  is_finite x -> fle (Fin 0) ((Np.abs x + x) / Fin 2)%npf.
Proof.
  intros Hx. assert (H : fin_or_nan x) by (destruct x; simpl in *; tauto).
  apply positive_part_nonneg in H.
  destruct x; simpl in *; try tauto.
  destruct (Req_dec_T 2 0); [lra|]. exact H.
Qed.

Lemma terminal_nonneg (self : instance) (z n : Z) (S K u d : R) :
  _S self = Fin S -> _K self = Fin K ->
  Forall (fle (Fin 0)) (terminal self z n (Fin u) (Fin d)).
Proof.
  intros HS HK. unfold terminal. rewrite Forall_map.
  eapply Forall_impl; [|eapply intrinsic_finite; eauto].
  intros x Hx. now apply positive_part_fle.
Qed.


Section Prices.

Variables S K t r b sigma : R.
Variable n : Z.
Hypothesis Hn : (1 <= n)%Z.

Variable pv : R.
Hypothesis Hp : calc_p (lattice S K t r b sigma n "european") (Fin t / of_Z n) = Fin pv.
Hypothesis Hpv : 0 <= pv <= 1.


End Prices.

End WellPosed.

(* ================================================================== *)
(** ** The loop of [_sim_mc] *)

Module Simulation.

Import MonteCarloOption Loop.

Section Run.

Context {G : Type}.
Variable self : instance G.
Variable call : bool.

Lemma draw_eq (g : G) : draw self g = (eps self g, advance self g).
Proof.
  unfold eps, advance, draw.
  destruct (sample_innovation (_Innovation self) g); reflexivity.
Qed.

Lemma advance_draw (g : G) : snd (draw self g) = advance self g.
Proof. now rewrite draw_eq. Qed.

(** Whatever happens in the body, exactly one draw has been made. *)
Lemma loop_body_innovation (i : nat) (it : vec) (w : world G) :
  innovation (snd (loop_body self call i it w)) = advance self (innovation w).
Proof.
  unfold loop_body. rewrite draw_eq.
  destruct (_Path self); [|reflexivity].
  destruct (_Payoff self); [|reflexivity].
  destruct (Np.eqb _ PInf); [reflexivity|].
  destruct (Py.setitem it i _); [|reflexivity].
  destruct (_trace self); [|reflexivity].
  destruct (Py.getitem _ i); reflexivity.
Qed.

Variable P : PathClass.
Variable Y : PayoffClass.
Hypothesis HP : _Path self = Some P.
Hypothesis HY : _Payoff self = Some Y.

(** The body, with both capabilities present and [i] in range. *)
Lemma loop_body_diverges (i : nat) (it : vec) (w : world G) :
  Np.eqb (tmp self call P Y (innovation w)) PInf = true ->
  loop_body self call i it w
  = (Py.Ok (Return (PyTuple (eps self (innovation w),
                             path self P (innovation w),
                             payoff self call P Y (innovation w)))),
     {| innovation := advance self (innovation w);
        log := log w ++ [Warn i] |}).
Proof.
  intros H. unfold loop_body. rewrite draw_eq, HP, HY.
  unfold tmp, payoff, path in H.
  destruct call; rewrite H; reflexivity.
Qed.

Lemma loop_body_continues (i : nat) (it : vec) (w : world G) :
  Np.eqb (tmp self call P Y (innovation w)) PInf = false ->
  (i < length it)%nat ->
  let it' := Py.update it i (tmp self call P Y (innovation w)) in
  loop_body self call i it w
  = (Py.Ok (Next it'),
     {| innovation := advance self (innovation w);
        log := log w ++
               (if _trace self
                then [PrintLoop i (tmp self call P Y (innovation w))
                                (Np.sum it' / of_nat (i + 1))]
                else []) |}).
Proof.
  intros H Hi it'. unfold loop_body. rewrite draw_eq, HP, HY.
  unfold tmp, payoff, path in H, it'.
  assert (Hset : forall x, Py.setitem it i x = Py.Ok (Py.update it i x)).
  { intros x. unfold Py.setitem.
    apply Nat.ltb_lt in Hi. now rewrite Hi. }
  assert (Hget : forall x, Py.getitem (Py.update it i x) i = Py.Ok x).
  { intros x. unfold Py.getitem. now rewrite nth_error_update_same. }
  destruct call; rewrite H, Hset; destruct (_trace self);
    rewrite ?Hget; unfold emit; cbn [innovation log];
    rewrite ?app_nil_r; reflexivity.
Qed.

End Run.

End Simulation.

Module SimulationLoop.

Import MonteCarloOption Loop Simulation.

Section Run.

Context {G : Type}.
Variable self : instance G.
Variable call : bool.
Variable P : PathClass.
Variable Y : PayoffClass.
Hypothesis HP : _Path self = Some P.
Hypothesis HY : _Payoff self = Some Y.

Lemma state_at_succ (k : nat) (g : G) :
  state_at self (S k) g = state_at self k (advance self g).
Proof. unfold state_at. apply Nat.iter_succ_r. Qed.

Lemma means_shift (m : nat) (g : G) :
  map (fun i => tmp self call P Y (state_at self i g)) (seq 0 (S m))
  = tmp self call P Y g
    :: map (fun i => tmp self call P Y (state_at self i (advance self g))) (seq 0 m).
Proof.
  cbn [seq map]. f_equal.
  rewrite <- seq_shift, map_map. apply map_ext. intros i.
  now rewrite state_at_succ.
Qed.

(** [m] loops none of which hits [+inf]: the estimates are written to
    [iteration] at their indices, and [m] draws have been made. *)
Lemma loop_completes (m : nat) (pre rest : vec) (w : world G) :
  (m <= length rest)%nat ->
  (forall i, (i < m)%nat ->
     Np.eqb (tmp self call P Y (state_at self i (innovation w))) PInf = false) ->
  exists lg,
    loop self call (seq (length pre) m) (pre ++ rest) w
    = (Py.Ok (Next (pre
                    ++ map (fun i => tmp self call P Y
                                       (state_at self i (innovation w)))
                           (seq 0 m)
                    ++ skipn m rest)),
       {| innovation := state_at self m (innovation w);
          log := log w ++ lg |})
    /\ ~ In PrintNewline lg /\ (forall i, ~ In (Warn i) lg).
Proof.
  revert pre rest w; induction m as [|m IH]; intros pre rest w Hm Hfin.
  - exists []. destruct w. cbn. rewrite app_nil_r. auto.
  - destruct rest as [|y rest]; simpl in Hm; [lia|].
    assert (H0 : Np.eqb (tmp self call P Y (innovation w)) PInf = false)
      by (apply (Hfin 0%nat); lia).
    cbn [seq loop].
    rewrite (@loop_body_continues G self call P Y HP HY) by
      (auto; rewrite length_app; simpl; lia).
    rewrite update_app.
    set (w1 := {| innovation := advance self (innovation w); log := _ |}).
    destruct (IH (pre ++ [tmp self call P Y (innovation w)]) rest w1)
      as (lg & E & Hnl & Hw).
    + lia.
    + intros i Hi. unfold w1; cbn [innovation].
      rewrite <- state_at_succ. apply Hfin. lia.
    + rewrite length_app in E. cbn [length] in E.
      rewrite Nat.add_1_r, <- app_assoc in E. cbn [app] in E.
      rewrite E. unfold w1; cbn [innovation log].
      change (0%nat :: seq 1 m) with (seq 0 (S m)).
      rewrite means_shift, <- state_at_succ, <- !app_assoc.
      cbn [app skipn].
      eexists. split; [reflexivity|].
      split.
      * intros Hin. apply in_app_or in Hin as [Hin|Hin]; [|tauto].
        destruct (_trace self); simpl in Hin; [|tauto].
        destruct Hin as [Hin|[]]. discriminate.
      * intros i Hin. apply in_app_or in Hin as [Hin|Hin]; [|now apply (Hw i)].
        destruct (_trace self); simpl in Hin; [|tauto].
        destruct Hin as [Hin|[]]. discriminate.
Qed.

(** The first loop [k] whose mean is [+inf] ends the run: the triple of
    that loop is returned and a warning for index [k] is the last thing
    written. *)
Lemma loop_aborts (k m : nat) (pre rest : vec) (w : world G) :
  (k < m)%nat -> (m <= length rest)%nat ->
  (forall i, (i < k)%nat ->
     Np.eqb (tmp self call P Y (state_at self i (innovation w))) PInf = false) ->
  Np.eqb (tmp self call P Y (state_at self k (innovation w))) PInf = true ->
  exists lg,
    loop self call (seq (length pre) m) (pre ++ rest) w
    = (Py.Ok (Return (PyTuple
                (eps self (state_at self k (innovation w)),
                 path self P (state_at self k (innovation w)),
                 payoff self call P Y (state_at self k (innovation w))))),
       {| innovation := state_at self (S k) (innovation w);
          log := log w ++ lg ++ [Warn (length pre + k)] |}).
Proof.
  revert m pre rest w; induction k as [|k IH]; intros m pre rest w Hk Hm Hfin Hinf.
  - destruct m as [|m]; [lia|]. cbn [seq loop].
    cbn [state_at Nat.iter] in Hinf.
    rewrite (@loop_body_diverges G self call P Y HP HY) by exact Hinf.
    exists []. rewrite Nat.add_0_r. reflexivity.
  - destruct m as [|m]; [lia|].
    destruct rest as [|y rest]; simpl in Hm; [lia|].
    assert (H0 : Np.eqb (tmp self call P Y (innovation w)) PInf = false)
      by (apply (Hfin 0%nat); lia).
    cbn [seq loop].
    rewrite (@loop_body_continues G self call P Y HP HY) by
      (auto; rewrite length_app; simpl; lia).
    rewrite update_app.
    set (w1 := {| innovation := advance self (innovation w); log := _ |}).
    destruct (IH m (pre ++ [tmp self call P Y (innovation w)]) rest w1)
      as (lg & E).
    + lia.
    + lia.
    + intros i Hi. unfold w1; cbn [innovation].
      rewrite <- state_at_succ. apply Hfin. lia.
    + unfold w1; cbn [innovation]. now rewrite <- state_at_succ.
    + rewrite length_app in E. cbn [length] in E.
      rewrite Nat.add_1_r, <- app_assoc in E. cbn [app] in E.
      rewrite E. unfold w1; cbn [innovation log].
      rewrite <- !state_at_succ, <- app_assoc.
      replace (S (length pre) + k)%nat with (length pre + S k)%nat by lia.
      match goal with
      | |- context [log w ++ ?X ++ lg ++ _] => exists (X ++ lg)
      end.
      rewrite <- !app_assoc. reflexivity.
Qed.

End Run.

End SimulationLoop.

Module Trace.

Import MonteCarloOption Loop Simulation.

Section Flag.

Context {G : Type}.
Variable self : instance G.
Variable call : bool.

Lemma loop_body_trace (b : bool) (i : nat) (it : vec) (w1 w2 : world G) :
  innovation w1 = innovation w2 ->
  fst (loop_body (with_trace self b) call i it w1)
  = fst (loop_body self call i it w2)
  /\ innovation (snd (loop_body (with_trace self b) call i it w1))
     = innovation (snd (loop_body self call i it w2)).
Proof.
  intros E. split.
  - unfold loop_body. rewrite !draw_eq.
    change (eps (with_trace self b)) with (eps self).
    change (advance (with_trace self b)) with (advance self).
    cbn [with_trace _Path _Payoff _sigma _dt _b _S _K _t _r _trace].
    rewrite E.
    destruct (_Path self); [|reflexivity].
    destruct (_Payoff self); [|reflexivity].
    destruct (Np.eqb _ PInf); [reflexivity|].
    unfold Py.setitem.
    destruct (Nat.ltb_spec i (length it)) as [Hi|Hi]; [|reflexivity].
    unfold Py.getitem. rewrite nth_error_update_same by exact Hi.
    destruct b, (_trace self); reflexivity.
  - rewrite !loop_body_innovation.
    change (advance (with_trace self b)) with (advance self). now rewrite E.
Qed.

Lemma loop_trace (b : bool) (indices : list nat) (it : vec) (w1 w2 : world G) :
  innovation w1 = innovation w2 ->
  fst (loop (with_trace self b) call indices it w1)
  = fst (loop self call indices it w2)
  /\ innovation (snd (loop (with_trace self b) call indices it w1))
     = innovation (snd (loop self call indices it w2)).
Proof.
  revert it w1 w2; induction indices as [|i rest IH]; intros it w1 w2 E.
  - simpl. auto.
  - cbn [loop].
    destruct (loop_body_trace b i it w1 w2 E) as [E1 E2].
    destruct (loop_body (with_trace self b) call i it w1) as [r1 w1'].
    destruct (loop_body self call i it w2) as [r2 w2'].
    cbn [fst snd] in E1, E2. subst r2.
    destruct r1 as [[it'|v]|e]; auto.
Qed.

(** The value returned, and the state the innovation instance is left
    in, do not depend on the [trace] flag nor on what was printed
    before. *)
Lemma _sim_mc_trace (b : bool) (w1 w2 : world G) :
  innovation w1 = innovation w2 ->
  fst (_sim_mc (with_trace self b) call w1) = fst (_sim_mc self call w2)
  /\ innovation (snd (_sim_mc (with_trace self b) call w1))
     = innovation (snd (_sim_mc self call w2)).
Proof.
  intros E. unfold _sim_mc.
  cbn [with_trace _trace _mc_loops].
  set (w1' := if b then _ else w1). set (w2' := if _trace self then _ else w2).
  assert (E' : innovation w1' = innovation w2').
  { unfold w1', w2'. destruct b, (_trace self); exact E. }
  clearbody w1' w2'.
  destruct (zeros (_mc_loops self)) as [it|e]; [|auto].
  destruct (loop_trace b (arange0 (_mc_loops self)) it w1' w2' E') as [E1 E2].
  destruct (loop (with_trace self b) call _ it w1') as [r1 u1].
  destruct (loop self call _ it w2') as [r2 u2].
  cbn [fst snd] in E1, E2. subst r2.
  destruct r1 as [[it'|v]|e]; auto.
Qed.

End Flag.

End Trace.

Module SimulationRun.

Import MonteCarloOption Loop Simulation SimulationLoop.

Section Run.

Context {G : Type}.
Variable self : instance G.
Variable call : bool.
Variable P : PathClass.
Variable Y : PayoffClass.
Hypothesis HP : _Path self = Some P.
Hypothesis HY : _Payoff self = Some Y.
Hypothesis Hloops : (0 <= _mc_loops self)%Z.

Lemma zeros_ok :
  zeros (_mc_loops self) = Py.Ok (repeat (Fin 0) (Z.to_nat (_mc_loops self))).
Proof.
  unfold zeros. destruct (Z.ltb_spec (_mc_loops self) 0); [lia|reflexivity].
Qed.

Lemma header_world (w : world G) :
  (if _trace self then emit w [PrintHeader; PrintLoopNo] else w)
  = {| innovation := innovation w; log := log w ++ header self |}.
Proof.
  unfold header, emit. destruct (_trace self); [reflexivity|].
  destruct w; cbn. now rewrite app_nil_r.
Qed.

(** No loop hits [+inf]: the run returns the [mc_loops] estimates. *)
Lemma _sim_mc_completes (w : world G) :
  (forall i, (i < Z.to_nat (_mc_loops self))%nat ->
             Np.eqb (tmp self call P Y (state_at self i (innovation w))) PInf = false) ->
  exists lg,
    _sim_mc self call w
    = (Py.Ok (PyArray (map (fun i => tmp self call P Y
                                       (state_at self i (innovation w)))
                           (seq 0 (Z.to_nat (_mc_loops self))))),
       {| innovation := state_at self (Z.to_nat (_mc_loops self)) (innovation w);
          log := log w ++ lg ++ [PrintNewline] |})
    /\ forall i, ~ In (Warn i) lg.
Proof.
  intros Hfin. unfold _sim_mc. rewrite header_world, zeros_ok.
  destruct (@loop_completes G self call P Y HP HY (Z.to_nat (_mc_loops self)) []
              (repeat (Fin 0) (Z.to_nat (_mc_loops self)))
              {| innovation := innovation w; log := log w ++ header self |})
    as (lg & E & _ & Hw).
  - now rewrite repeat_length.
  - exact Hfin.
  - cbn [length app] in E.
    unfold arange0. rewrite E.
    rewrite skipn_all2 by (rewrite repeat_length; lia).
    rewrite app_nil_r. unfold emit. cbn [innovation log].
    exists (header self ++ lg). rewrite <- !app_assoc. split; [reflexivity|].
    intros i Hin. apply in_app_or in Hin as [Hin|Hin]; [|now apply (Hw i)].
    unfold header in Hin. destruct (_trace self); simpl in Hin; [|tauto].
    destruct Hin as [Hin|[Hin|[]]]; discriminate.
Qed.

(** Loop [k] is the first to hit [+inf]: the run returns the tuple of
    that loop, and ends on the warning for [k]. *)
Lemma _sim_mc_aborts (k : nat) (w : world G) :
  (k < Z.to_nat (_mc_loops self))%nat ->
  (forall i, (i < k)%nat ->
             Np.eqb (tmp self call P Y (state_at self i (innovation w))) PInf = false) ->
  Np.eqb (tmp self call P Y (state_at self k (innovation w))) PInf = true ->
  exists lg,
    _sim_mc self call w
    = (Py.Ok (PyTuple (eps self (state_at self k (innovation w)),
                       path self P (state_at self k (innovation w)),
                       payoff self call P Y (state_at self k (innovation w)))),
       {| innovation := state_at self (S k) (innovation w);
          log := log w ++ lg ++ [Warn k] |}).
Proof.
  intros Hk Hfin Hinf. unfold _sim_mc. rewrite header_world, zeros_ok.
  destruct (@loop_aborts G self call P Y HP HY k (Z.to_nat (_mc_loops self)) []
              (repeat (Fin 0) (Z.to_nat (_mc_loops self)))
              {| innovation := innovation w; log := log w ++ header self |})
    as (lg & E); auto.
  - now rewrite repeat_length.
  - cbn [length app Nat.add] in E. unfold arange0. rewrite E.
    cbn [innovation log].
    exists (header self ++ lg). rewrite <- !app_assoc. reflexivity.
Qed.

End Run.

End SimulationRun.

(* ================================================================== *)
(** ** Moments of a finite sample *)

Module Moments.

Local Open Scope R_scope.

Lemma fold_left_Rplus_acc (l : list R) (a : R) :
  fold_left Rplus l a = a + Rsum l.
Proof.
  unfold Rsum. revert a; induction l as [|x l IH]; intros a; simpl.
  - ring.
  - rewrite (IH (a + x)), (IH (0 + x)). ring.
Qed.

Lemma Rsum_cons (x : R) (l : list R) : Rsum (x :: l) = x + Rsum l.
Proof. unfold Rsum at 1. simpl. rewrite fold_left_Rplus_acc. ring. Qed.

Lemma Rsum_nil : Rsum [] = 0.
Proof. reflexivity. Qed.



Lemma Rsum_nonneg (l : list R) : Forall (fun x => 0 <= x) l -> 0 <= Rsum l.
Proof.
  induction 1 as [|x l Hx _ IH]; [rewrite Rsum_nil; lra|].
  rewrite Rsum_cons. lra.
Qed.


Lemma INR_length_pos {A : Type} (l : list A) : l <> [] -> 0 < INR (length l).
Proof.
  intros H. destruct l; [contradiction|]. apply lt_0_INR. simpl. lia.
Qed.

Lemma squares_nonneg (m : R) (l : list R) :
  Forall (fun x => 0 <= x) (map (fun x => Rabs (x - m) ^ 2) l).
Proof.
  rewrite Forall_map. apply Forall_forall. intros x _. apply pow2_ge_0.
Qed.

(** The variance under the square root of [Rstd] is never negative. *)
Lemma variance_nonneg (m : R) (l : list R) :
  0 <= Rmean (map (fun x => Rabs (x - m) ^ 2) l).
Proof.
  unfold Rmean. rewrite length_map.
  destruct l as [|x l].
  - cbn [map length INR]. rewrite Rsum_nil. unfold Rdiv. rewrite Rmult_0_l. lra.
  - apply Rmult_le_pos.
    + apply Rsum_nonneg, squares_nonneg.
    + left. apply Rinv_0_lt_compat, INR_length_pos. discriminate.
Qed.






End Moments.

(* ================================================================== *)
(** ** The standardization step on batches of numbers *)

Module Standardization.

Import MonteCarloOption Loop Moments.
Local Open Scope R_scope.

Lemma fold_add_fin (l : list R) (a : R) :
  fold_left Np.add (map Fin l) (Fin a) = Fin (fold_left Rplus l a).
Proof. revert a; induction l as [|x l IH]; intros a; simpl; auto. Qed.

Lemma sum_fin (l : list R) : Np.sum (map Fin l) = Fin (Rsum l).
Proof. apply fold_add_fin. Qed.

Lemma mean_fin (l : list R) : l <> [] -> Np.mean (map Fin l) = Fin (Rmean l).
Proof.
  intros Hl. unfold Np.mean. rewrite sum_fin, length_map. simpl.
  destruct (Req_dec_T (INR (length l)) 0) as [E|_]; [|reflexivity].
  pose proof (INR_length_pos Hl). lra.
Qed.



Section Batch.

Variable e : batch.
Variable l : list R.
Hypothesis He : concat e = map Fin l.

Lemma mean2_fin : l <> [] -> mean2 e = Fin (Rmean l).
Proof. intros Hl. unfold mean2. rewrite He. now apply mean_fin. Qed.

Lemma std2_fin : l <> [] -> std2 e = Fin (Rstd l).
Proof.
  intros Hl. unfold std2. rewrite mean2_fin by exact Hl. rewrite He, map_map.
  replace (map (fun x => Np.abs (Fin x - Fin (Rmean l)) ** 2)%npf l)
    with (map Fin (map (fun x => Rabs (x - Rmean l) ^ 2) l))
    by (rewrite map_map; reflexivity).
  rewrite mean_fin by (destruct l; [contradiction|discriminate]).
  cbn [Np.sqrt].
  destruct (Rlt_dec _ 0) as [H|_]; [|reflexivity].
  pose proof (variance_nonneg (Rmean l) l). lra.
Qed.





End Batch.



End Standardization.

(* ================================================================== *)
(** * The lattice when the up factor is not a number

    [u = exp(sigma sqrt(dt))] is [+inf] as soon as the exponent is: for
    [sigma = inf], and in float64 for every exponent above 709.78, where
    [np.exp] overflows.  The values below are those of the one-step lattice
    with such a [u]: [d = 1/u = 0], [p = 0], and the intrinsic value of the
    up node of a put is [-inf]. *)

Module InfiniteUp.

Import CRRBinomialTreeOption LatticeLoops.
Local Open Scope R_scope.



Section OneStep.

Variables S K t r b : R.
Variable type : string.
Hypothesis HS : 0 < S.
Hypothesis Ht : 0 < t.














End OneStep.

End InfiniteUp.

(* ================================================================== *)
(** * The properties of the lattice engine *)

(** [call()] and [put()] of a lattice object are [_calc_price] at z = 1 and
    z = -1 with the stored [n] and [type]. *)
Lemma call_is_calc_price (S K t r b sigma : R) (n : Z) (type : string) :
  CRR.call (lattice S K t r b sigma n type)
  = CRR._calc_price (lattice S K t r b sigma n type) 1 n type.
Proof. reflexivity. Qed.

Lemma put_is_calc_price (S K t r b sigma : R) (n : Z) (type : string) :
  CRR.put (lattice S K t r b sigma n type)
  = CRR._calc_price (lattice S K t r b sigma n type) (-1) n type.
Proof. reflexivity. Qed.


(** C3, amended: for every parameter set with sigma = 0 and n >= 1 the
    code has no guard: u = d, the divisor u - d of the risk-neutral
    probability is zero (or nan), p is not a number, and the
    European-style price returned by call() and put() is nan. *)
Theorem C3_zero_volatility_european_price_is_nan
    (S K t r b : R) (n : Z) :
  (1 <= n)%Z ->
  ~ is_finite (CRR.calc_p (lattice S K t r b 0 n "european") (Fin t / of_Z n))
  /\ CRR.call (lattice S K t r b 0 n "european") = Py.Ok (PyFloat NaN)
  /\ CRR.put (lattice S K t r b 0 n "european") = Py.Ok (PyFloat NaN).
Proof.
  intros Hn. split; [|split].
  - destruct (@EuropeanRefinement.dt_finite t n ltac:(lia)) as [x ->].
    now apply ZeroVolatility.p_not_finite.
  - rewrite call_is_calc_price. now apply ZeroVolatility.european_price_nan.
  - rewrite put_is_calc_price. now apply ZeroVolatility.european_price_nan.
Qed.

(** A five-step lattice with sigma = 0: both European prices are nan. *)
Lemma C3_zero_volatility_witness :
  CRR.call (lattice 50 40 1 (1/10) (1/10) 0 5 "european") = Py.Ok (PyFloat NaN)
  /\ CRR.put (lattice 50 40 1 (1/10) (1/10) 0 5 "european") = Py.Ok (PyFloat NaN).
Proof.
  exact (proj2 (@C3_zero_volatility_european_price_is_nan
                  50 40 1 (1/10) (1/10) 5 ltac:(lia))).
Defined.

(** C3 as stated fails: at S = 50, K = 40, t = 1, r = b = 0.1, sigma = 0,
    n = 5 the European call price is nan, whereas the discounted intrinsic
    value at the forward price is a number. *)
Lemma C3_counterexample :
  CRR.call (lattice 50 40 1 (1/10) (1/10) 0 5 "european") = Py.Ok (PyFloat NaN)
  /\ is_finite (discounted_forward_intrinsic
                  1 (Fin 50) (Fin 40) (Fin 1) (Fin (1/10)) (Fin (1/10)))
  /\ CRR.call (lattice 50 40 1 (1/10) (1/10) 0 5 "european")
     <> Py.Ok (PyFloat (discounted_forward_intrinsic
                          1 (Fin 50) (Fin 40) (Fin 1) (Fin (1/10)) (Fin (1/10)))).
Proof.
  assert (E : CRR.call (lattice 50 40 1 (1/10) (1/10) 0 5 "european")
              = Py.Ok (PyFloat NaN)).
  { rewrite call_is_calc_price. apply ZeroVolatility.european_price_nan. lia. }
  assert (F : is_finite (discounted_forward_intrinsic
                  1 (Fin 50) (Fin 40) (Fin 1) (Fin (1/10)) (Fin (1/10)))).
  { unfold discounted_forward_intrinsic, LatticeSpec.maximum. simpl.
    destruct (Rlt_dec _ 0); exact I. }
  repeat split; auto.
  rewrite E. intros H. injection H as H. rewrite <- H in F. exact F.
Qed.














(** C10, amended: when the type string is neither "european" nor
    "american" and n is not 0, call() and put() return None: nothing is
    raised and no price is computed. *)
Theorem C10_unknown_type_returns_none
    (S K t r b sigma : npf) (type : string) (n : Z) (self : CRR.instance) :
  CRR.__init__ S K t r b sigma type n = Py.Ok self ->
  type <> "european"%string -> type <> "american"%string -> n <> 0%Z ->
  CRR.call self = Py.Ok PyNone /\ CRR.put self = Py.Ok PyNone.
Proof.
  intros Hinit He Ha Hn. injection Hinit as <-.
  apply String.eqb_neq in He, Ha.
  unfold CRR.call, CRR.put, CRR._calc_price, py_truediv.
  cbn [CRR._n CRR._type CRR._t].
  destruct (Z.eqb_spec n 0) as [E|_]; [contradiction|].
  cbn [Py.bind]. rewrite He, Ha. split; reflexivity.
Qed.

(** A lattice built with the type "asian" prices to None. *)
Lemma C10_unknown_type_witness :
  CRR.call (lattice 50 50 1 (1/10) (1/10) (4/10) 5 "asian") = Py.Ok PyNone
  /\ CRR.put (lattice 50 50 1 (1/10) (1/10) (4/10) 5 "asian") = Py.Ok PyNone.
Proof.
  apply (@C10_unknown_type_returns_none
           (Fin 50) (Fin 50) (Fin 1) (Fin (1/10)) (Fin (1/10)) (Fin (4/10))
           "asian" 5);
    [reflexivity|discriminate|discriminate|lia].
Defined.

(** C10 as stated fails at n = 0: the first statement of [_calc_price]
    divides by n, and call() raises ZeroDivisionError whatever the type. *)
Lemma C10_counterexample :
  CRR.__init__ (Fin 50) (Fin 50) (Fin 1) (Fin (1/10)) (Fin (1/10)) (Fin (4/10))
               "asian" 0
  = Py.Ok (lattice 50 50 1 (1/10) (1/10) (4/10) 0 "asian")
  /\ CRR.call (lattice 50 50 1 (1/10) (1/10) (4/10) 0 "asian")
     = Py.Raise Py.ZeroDivisionError
  /\ CRR.call (lattice 50 50 1 (1/10) (1/10) (4/10) 0 "asian") <> Py.Ok PyNone.
Proof. repeat split. discriminate. Qed.

(* ================================================================== *)
(** * The properties of the Monte Carlo engine *)

Lemma eqb_PInf_true (x : npf) : Np.eqb x PInf = true <-> x = PInf.
Proof.
  destruct x; simpl; split; intros H; try discriminate; reflexivity.
Qed.

Lemma eqb_PInf_false (x : npf) : Np.eqb x PInf = false <-> x <> PInf.
Proof.
  destruct x; simpl; split; intros H; try discriminate; try reflexivity;
    try congruence.
Qed.

(** A completed prefix of the loop has made one draw per index and nothing
    else to the innovation instance. *)
Lemma loop_innovation {G : Type} (self : MC.instance G) (call : bool)
    (indices : list nat) (it : vec) (w : MC.world G) (it' : vec) (w' : MC.world G) :
  MC.loop self call indices it w = (Py.Ok (MC.Next it'), w') ->
  MC.innovation w'
  = Nat.iter (length indices) (Loop.advance self) (MC.innovation w).
Proof.
  revert it w; induction indices as [|i rest IH]; intros it w H.
  - simpl in H. now injection H as _ <-.
  - cbn [MC.loop] in H.
    pose proof (Simulation.loop_body_innovation self call i it w) as Hb.
    destruct (MC.loop_body self call i it w) as [[[it1|v]|e] w1];
      try discriminate.
    cbn [snd] in Hb. apply IH in H. rewrite H, Hb.
    cbn [length]. now rewrite Nat.iter_succ_r.
Qed.

(** The mean payoff of the demonstration engine on the batches used below. *)
Lemma demo_tmp_nan :
  Loop.tmp (Demo.engine [[NaN]] 1 false false) true
           Demo.identity_path Demo.row_sums 0%nat = NaN.
Proof. reflexivity. Qed.

Lemma demo_tmp_pinf (loops : Z) :
  Loop.tmp (Demo.engine [[PInf]] loops false false) true
           Demo.identity_path Demo.row_sums 0%nat = PInf.
Proof.
  unfold Loop.tmp, Np.mean. simpl.
  destruct (Rlt_dec 1 0); [lra|reflexivity].
Qed.

(** C1, amended: in a run with both capabilities present, the first loop k
    whose mean payoff is +inf ends the run at once: the run returns the
    triple (innovation batch, path object, payoff vector) of loop k, after a
    warning for k and exactly k + 1 draws; and when no loop's mean is +inf
    the run returns the mc_loops means and warns of nothing. *)
Theorem C1_run_aborts_on_plus_infinity
    {G : Type} (self : MC.instance G) (call : bool)
    (P : MC.PathClass) (Y : MC.PayoffClass) (w : MC.world G) :
  MC._Path self = Some P -> MC._Payoff self = Some Y ->
  (0 <= MC._mc_loops self)%Z ->
  (forall k,
      (k < Z.to_nat (MC._mc_loops self))%nat ->
      (forall i, (i < k)%nat ->
                 Loop.tmp self call P Y (Loop.state_at self i (MC.innovation w)) <> PInf) ->
      Loop.tmp self call P Y (Loop.state_at self k (MC.innovation w)) = PInf ->
      exists lg,
        MC._sim_mc self call w
        = (Py.Ok (PyTuple (Loop.eps self (Loop.state_at self k (MC.innovation w)),
                           Loop.path self P (Loop.state_at self k (MC.innovation w)),
                           Loop.payoff self call P Y
                                       (Loop.state_at self k (MC.innovation w)))),
           {| MC.innovation := Loop.state_at self (S k) (MC.innovation w);
              MC.log := MC.log w ++ lg ++ [MC.Warn k] |}))
  /\ ((forall i, (i < Z.to_nat (MC._mc_loops self))%nat ->
                 Loop.tmp self call P Y (Loop.state_at self i (MC.innovation w)) <> PInf) ->
      exists lg,
        MC._sim_mc self call w
        = (Py.Ok (PyArray
                    (map (fun i => Loop.tmp self call P Y
                                            (Loop.state_at self i (MC.innovation w)))
                         (seq 0 (Z.to_nat (MC._mc_loops self))))),
           {| MC.innovation :=
                Loop.state_at self (Z.to_nat (MC._mc_loops self)) (MC.innovation w);
              MC.log := MC.log w ++ lg ++ [MC.PrintNewline] |})
        /\ forall i, ~ In (MC.Warn i) lg).
Proof.
  intros HP HY Hloops. split.
  - intros k Hk Hfin Hinf.
    apply (@SimulationRun._sim_mc_aborts G self call P Y HP HY Hloops k w Hk).
    + intros i Hi. apply eqb_PInf_false. now apply Hfin.
    + now apply eqb_PInf_true.
  - intros Hfin.
    apply (@SimulationRun._sim_mc_completes G self call P Y HP HY Hloops w).
    intros i Hi. apply eqb_PInf_false. now apply Hfin.
Qed.

(** A three-loop run whose first mean payoff is +inf stops in loop 0, after
    one draw. *)
Lemma C1_run_aborts_witness :
  exists lg,
    MC.call (Demo.engine [[PInf]] 3 false false) Demo.start
    = (Py.Ok (PyTuple ([[PInf]],
                       MC.new_Path Demo.identity_path [[PInf]] (Fin 1) (Fin 1) (Fin 0),
                       [PInf])),
       {| MC.innovation := 1%nat; MC.log := lg ++ [MC.Warn 0] |}).
Proof.
  destruct (@C1_run_aborts_on_plus_infinity
              nat (Demo.engine [[PInf]] 3 false false) true
              Demo.identity_path Demo.row_sums Demo.start
              eq_refl eq_refl ltac:(cbn; lia)) as [Habort _].
  destruct (Habort 0%nat ltac:(cbn; lia) ltac:(intros i Hi; lia)
                   (demo_tmp_pinf 3)) as [lg E].
  exists lg. exact E.
Defined.

(** C1 as stated fails for a mean payoff that is nan: a one-loop run whose
    mean payoff is nan, which is not finite, returns the array [nan] and
    not the diagnostic triple. *)
Lemma C1_counterexample :
  ~ is_finite (Loop.tmp (Demo.engine [[NaN]] 1 false false) true
                        Demo.identity_path Demo.row_sums 0%nat)
  /\ MC.call (Demo.engine [[NaN]] 1 false false) Demo.start
     = (Py.Ok (PyArray [NaN]),
        {| MC.innovation := 1%nat; MC.log := [MC.PrintNewline] |}).
Proof.
  split.
  - rewrite demo_tmp_nan. simpl. tauto.
  - reflexivity.
Qed.

(** C2, amended: nothing is validated and there is no ConfigurationError.
    The lattice constructor accepts every n; pricing then raises
    ZeroDivisionError for n = 0 and IndexError for n < 0.  The Monte Carlo
    constructor raises ZeroDivisionError for path_length = 0, otherwise
    TypeError when Innovation is missing, and otherwise succeeds, whatever
    mc_loops, mc_paths, Path and Payoff are; a run then raises ValueError
    for mc_loops < 0, returns an empty array for mc_loops = 0, and with
    mc_loops >= 1 and Path or Payoff missing raises TypeError in the first
    loop, after the innovation draw. *)
Theorem C2_failures_without_validation :
  (forall S K t r b sigma type n,
      CRR.__init__ S K t r b sigma type n
      = Py.Ok (CRR.mk S K t r b sigma n type))
  /\ (forall self z type,
         CRR._calc_price self z 0 type = Py.Raise Py.ZeroDivisionError)
  /\ (forall self z n,
         (n < 0)%Z ->
         CRR._calc_price self z n "european" = Py.Raise Py.IndexError
         /\ CRR._calc_price self z n "american" = Py.Raise Py.IndexError)
  /\ (forall (G : Type) mc_loops mc_paths S K t r b sigma
             (Innovation : option (MC.Innovations G)) Path Payoff
             trace antithetic standardization eps,
         MC.__init__ mc_loops 0 mc_paths S K t r b sigma Innovation Path Payoff
                     trace antithetic standardization eps
         = Py.Raise Py.ZeroDivisionError)
  /\ (forall (G : Type) mc_loops path_length mc_paths S K t r b sigma Path Payoff
             trace antithetic standardization eps,
         path_length <> 0%Z ->
         @MC.__init__ G mc_loops path_length mc_paths S K t r b sigma None Path Payoff
                      trace antithetic standardization eps
         = Py.Raise Py.TypeError)
  /\ (forall (G : Type) mc_loops path_length mc_paths S K t r b sigma
             (cls : MC.Innovations G) Path Payoff
             trace antithetic standardization eps,
         path_length <> 0%Z ->
         exists self g,
           MC.__init__ mc_loops path_length mc_paths S K t r b sigma (Some cls)
                       Path Payoff trace antithetic standardization eps
           = Py.Ok (self, g)
           /\ MC._mc_loops self = mc_loops /\ MC._mc_paths self = mc_paths
           /\ MC._path_length self = path_length
           /\ MC._Path self = Path /\ MC._Payoff self = Payoff)
  /\ (forall (G : Type) (self : MC.instance G) call w,
         (MC._mc_loops self < 0)%Z ->
         fst (MC._sim_mc self call w) = Py.Raise Py.ValueError
         /\ MC.innovation (snd (MC._sim_mc self call w)) = MC.innovation w)
  /\ (forall (G : Type) (self : MC.instance G) call w,
         MC._mc_loops self = 0%Z ->
         fst (MC._sim_mc self call w) = Py.Ok (PyArray [])
         /\ MC.innovation (snd (MC._sim_mc self call w)) = MC.innovation w)
  /\ (forall (G : Type) (self : MC.instance G) call w,
         (1 <= MC._mc_loops self)%Z ->
         MC._Path self = None \/ MC._Payoff self = None ->
         fst (MC._sim_mc self call w) = Py.Raise Py.TypeError
         /\ MC.innovation (snd (MC._sim_mc self call w))
            = Loop.advance self (MC.innovation w)).
Proof.
  repeat apply conj.
  - reflexivity.
  - reflexivity.
  - intros self z n Hn.
    assert (E0 : (n =? 0)%Z = false) by (apply Z.eqb_neq; lia).
    assert (E1 : arange0 (n + 1) = []).
    { unfold arange0. now replace (Z.to_nat (n + 1)) with 0%nat by lia. }
    assert (E2 : arange0 n = []).
    { unfold arange0. now replace (Z.to_nat n) with 0%nat by lia. }
    unfold CRR._calc_price, py_truediv. rewrite E0. cbn [Py.bind].
    unfold CRR.terminal, CRR.intrinsic, CRR._euro, CRR._amer.
    rewrite E1, E2. split; reflexivity.
  - reflexivity.
  - intros G mc_loops path_length mc_paths S K t r b sigma Path Payoff
           trace antithetic standardization eps Hpl.
    unfold MC.__init__, py_truediv.
    destruct (Z.eqb_spec path_length 0); [contradiction|reflexivity].
  - intros G mc_loops path_length mc_paths S K t r b sigma cls Path Payoff
           trace antithetic standardization eps Hpl.
    unfold MC.__init__, py_truediv.
    destruct (Z.eqb_spec path_length 0); [contradiction|].
    cbn [Py.bind]. do 2 eexists. split; [reflexivity|]. repeat split.
  - intros G self call w Hneg. unfold MC._sim_mc, zeros.
    destruct (Z.ltb_spec (MC._mc_loops self) 0) as [_|H]; [|lia].
    destruct (MC._trace self); split; reflexivity.
  - intros G self call w H0. unfold MC._sim_mc, zeros, arange0.
    rewrite H0. cbn. destruct (MC._trace self); split; reflexivity.
  - intros G self call w Hpos Hmissing. unfold MC._sim_mc, zeros, arange0.
    destruct (Z.ltb_spec (MC._mc_loops self) 0) as [H|_]; [lia|].
    destruct (Z.to_nat (MC._mc_loops self)) as [|m] eqn:Em; [lia|].
    cbn [seq MC.loop repeat].
    set (w0 := if MC._trace self then _ else w).
    assert (Ew : MC.innovation w0 = MC.innovation w)
      by (unfold w0; destruct (MC._trace self); reflexivity).
    pose proof (Simulation.loop_body_innovation
                  self call 0 (Fin 0 :: repeat (Fin 0) m) w0) as Hb.
    assert (Hr : fst (MC.loop_body self call 0 (Fin 0 :: repeat (Fin 0) m) w0)
                 = Py.Raise Py.TypeError).
    { unfold MC.loop_body. rewrite Simulation.draw_eq.
      destruct Hmissing as [E|E]; rewrite E; [reflexivity|].
      destruct (MC._Path self); reflexivity. }
    destruct (MC.loop_body self call 0 (Fin 0 :: repeat (Fin 0) m) w0)
      as [r w1].
    cbn [fst snd] in Hb, Hr. subst r. cbn [fst snd]. now rewrite Hb, Ew.
Qed.

(** C2 as stated fails: the lattice constructor accepts n = 0, and a Monte
    Carlo run with mc_loops = 0 returns an empty array; neither fails. *)
Lemma C2_counterexample :
  CRR.__init__ (Fin 50) (Fin 50) (Fin 1) (Fin (1/10)) (Fin (1/10)) (Fin (4/10))
               "european" 0
  = Py.Ok (lattice 50 50 1 (1/10) (1/10) (4/10) 0 "european")
  /\ MC.call (Demo.engine [[Fin 0]] 0 false false) Demo.start
     = (Py.Ok (PyArray []),
        {| MC.innovation := 0%nat; MC.log := [MC.PrintNewline] |}).
Proof. split; reflexivity. Qed.

(** The batch of a loop is the standardized, antithetically expanded fresh
    draw. *)
Lemma eps_is_transformed_draw {G : Type} (self : MC.instance G) (g : G) :
  Loop.eps self g
  = MC.standardize self (MC.antithetic_variates self (Loop.fresh self g)).
Proof.
  unfold Loop.eps, Loop.fresh, MC.draw.
  destruct (MC.sample_innovation (MC._Innovation self) g); reflexivity.
Qed.

(* ================================================================== *)
(** ** The batch the loop body hands to the path generator *)

Module PathBatch.

Import MonteCarloOption.

Section Body.

Context {G : Type}.
Variable self : instance G.
Variable call : bool.
Variable P : PathClass.
Variable Y : PayoffClass.
Hypothesis HP : _Path self = Some P.
Hypothesis HY : _Payoff self = Some Y.

(** What one pass of the loop body returns, in terms of the batch it hands
    to the [Path] constructor and of the payoff computed from that path. *)
Lemma loop_body_path (i : nat) (it : vec) (w : world G) :
  let raw := fst (sample_innovation (_Innovation self) (innovation w)) in
  let eps := standardize self (antithetic_variates self raw) in
  let path := new_Path P eps (_sigma self) (_dt self) (_b self) in
  let payoff :=
    if call
    then payoff_call Y path (_S self) (_K self) (_t self)
                     (_r self) (_b self) (_sigma self)
    else payoff_put Y path (_S self) (_K self) (_t self)
                    (_r self) (_b self) (_sigma self) in
  (Np.eqb (Np.mean payoff) PInf = true ->
   fst (loop_body self call i it w) = Py.Ok (Return (PyTuple (eps, path, payoff))))
  /\ (Np.eqb (Np.mean payoff) PInf = false -> (i < length it)%nat ->
      fst (loop_body self call i it w)
      = Py.Ok (Next (Py.update it i (Np.mean payoff))))
  /\ innovation (snd (loop_body self call i it w))
     = snd (sample_innovation (_Innovation self) (innovation w)).
Proof.
  intros raw eps path payoff.
  assert (Eeps : Loop.eps self (innovation w) = eps)
    by apply eps_is_transformed_draw.
  assert (Epay : Loop.payoff self call P Y (innovation w) = payoff).
  { unfold Loop.payoff, Loop.path. rewrite Eeps. reflexivity. }
  assert (Etmp : Loop.tmp self call P Y (innovation w) = Np.mean payoff).
  { unfold Loop.tmp. now rewrite Epay. }
  split; [|split].
  - intros H. rewrite <- Etmp in H.
    rewrite (@Simulation.loop_body_diverges G self call P Y HP HY i it w H).
    cbn [fst]. unfold Loop.path. rewrite Eeps, Epay. reflexivity.
  - intros H Hi. rewrite <- Etmp in H.
    rewrite (@Simulation.loop_body_continues G self call P Y HP HY i it w H Hi).
    cbn [fst]. now rewrite Etmp.
  - apply Simulation.loop_body_innovation.
Qed.

End Body.

End PathBatch.

Module SampleDeviation.

Import Moments Standardization.
Local Open Scope R_scope.

(** The moments of the two-point sample [c, -c]. *)
Lemma Rmean_pair (c : R) : Rmean [c; - c] = 0.
Proof. unfold Rmean, Rsum. simpl. field. Qed.

Lemma squares_pair (c : R) :
  Rsum (map (fun x => Rabs (x - Rmean [c; - c]) ^ 2) [c; - c]) = 2 * c ^ 2.
Proof.
  rewrite Rmean_pair. unfold Rsum. cbn [map fold_left].
  rewrite !Rminus_0_r, !pow2_abs. ring.
Qed.

Lemma Rstd_pair (c : R) : 0 <= c -> Rstd [c; - c] = c.
Proof.
  intros Hc. unfold Rstd. unfold Rmean at 1. rewrite squares_pair.
  cbn [length map INR].
  replace (2 * c ^ 2 / (1 + 1)) with (c ^ 2) by field.
  now apply sqrt_pow2.
Qed.



(** The batch [[c]; [-c]] standardized: [[1]; [-1]]. *)
Lemma standardized_pair (c : R) :
  0 < c ->
  div2 (sub2 [[Fin c]; [Fin (- c)]] (mean2 [[Fin c]; [Fin (- c)]]))
       (std2 [[Fin c]; [Fin (- c)]])
  = [[Fin 1]; [Fin (-1)]].
Proof.
  intros Hc.
  rewrite (@mean2_fin [[Fin c]; [Fin (- c)]] [c; - c] eq_refl) by discriminate.
  rewrite (@std2_fin [[Fin c]; [Fin (- c)]] [c; - c] eq_refl) by discriminate.
  rewrite Rmean_pair, Rstd_pair by lra.
  unfold div2, sub2. cbn [map Np.sub Np.neg Np.add Np.div].
  destruct (Req_dec_T c 0); [lra|].
  repeat f_equal; field; lra.
Qed.

End SampleDeviation.

Module Diagnostic.

Import MonteCarloOption.

(** The mean of the payoff [[+inf]] is [+inf]. *)
Lemma infinite_payoff_mean : Np.mean [PInf] = PInf.
Proof.
  unfold Np.mean. simpl. destruct (Rlt_dec 1 0); [lra|reflexivity].
Qed.

(** A run of the diagnostic engine stops in its first loop and returns the
    batch that loop handed to the path generator. *)
Lemma diagnostic_run (e : batch) (mc_loops : Z) (antithetic standardization : bool) :
  (1 <= mc_loops)%Z ->
  fst (MC.call (Demo.diagnostic_engine e mc_loops antithetic standardization)
               Demo.start)
  = Py.Ok (PyTuple
             (standardize (Demo.diagnostic_engine e mc_loops antithetic standardization)
                (antithetic_variates
                   (Demo.diagnostic_engine e mc_loops antithetic standardization) e),
              new_Path Demo.identity_path
                (standardize (Demo.diagnostic_engine e mc_loops antithetic standardization)
                   (antithetic_variates
                      (Demo.diagnostic_engine e mc_loops antithetic standardization) e))
                (Fin 1) (Fin 1) (Fin 0),
              [PInf])).
Proof.
  intros Hm.
  destruct (@SimulationRun._sim_mc_aborts
              nat (Demo.diagnostic_engine e mc_loops antithetic standardization) true
              Demo.identity_path Demo.infinite_payoff eq_refl eq_refl
              ltac:(cbn; lia) 0%nat Demo.start ltac:(cbn; lia)
              ltac:(intros i Hi; lia)) as [lg E].
  - unfold Loop.tmp, Loop.payoff. cbn [payoff_call Demo.infinite_payoff].
    now rewrite infinite_payoff_mean.
  - unfold MC.call. rewrite E. cbn [fst]. reflexivity.
Qed.

End Diagnostic.






(** C8, amended: with antithetic enabled, when the loops before index k
    have completed, the state of the innovation instance at the start of
    loop k is the result of k draws and of nothing else; the batch loop k
    hands to the Path constructor is the batch freshly drawn in that state
    followed by its negation along the paths axis, twice as many paths as
    drawn, and standardized when standardization is enabled too; the payoff
    is evaluated on the path built from that batch, and the loop stores its
    mean in [iteration[k]], or returns the batch in the diagnostic tuple when
    that mean is +inf; and what loop k leaves to the next loop is the state
    left by its own draw: no expanded batch is carried over. *)
Theorem C8_antithetic_batch_is_fresh_draw_and_negation
    {G : Type} (self : MC.instance G) (call : bool)
    (P : MC.PathClass) (Y : MC.PayoffClass) (k : nat)
    (it : vec) (w : MC.world G) (it' : vec) (w' : MC.world G) :
  MC._antithetic self = true ->
  MC._Path self = Some P -> MC._Payoff self = Some Y ->
  MC.loop self call (seq 0 k) it w = (Py.Ok (MC.Next it'), w') ->
  let sample := MC.sample_innovation (MC._Innovation self) in
  let raw := fst (sample (MC.innovation w')) in
  let expanded := raw ++ map (map Np.neg) raw in
  let eps :=
    if MC._standardization self
    then div2 (sub2 expanded (mean2 expanded)) (std2 expanded)
    else expanded in
  let path := MC.new_Path P eps (MC._sigma self) (MC._dt self) (MC._b self) in
  let payoff :=
    if call
    then MC.payoff_call Y path (MC._S self) (MC._K self) (MC._t self)
                        (MC._r self) (MC._b self) (MC._sigma self)
    else MC.payoff_put Y path (MC._S self) (MC._K self) (MC._t self)
                       (MC._r self) (MC._b self) (MC._sigma self) in
  MC.innovation w' = Nat.iter k (fun g => snd (sample g)) (MC.innovation w)
  /\ length expanded = (2 * length raw)%nat
  /\ (Np.eqb (Np.mean payoff) PInf = true ->
      fst (MC.loop_body self call k it' w')
      = Py.Ok (MC.Return (PyTuple (eps, path, payoff))))
  /\ (Np.eqb (Np.mean payoff) PInf = false -> (k < length it')%nat ->
      fst (MC.loop_body self call k it' w')
      = Py.Ok (MC.Next (Py.update it' k (Np.mean payoff))))
  /\ MC.innovation (snd (MC.loop_body self call k it' w'))
     = snd (sample (MC.innovation w')).
Proof.
  intros Hanti HP HY Hloop sample raw expanded eps path payoff.
  destruct (@PathBatch.loop_body_path G self call P Y HP HY k it' w')
    as (Hdiv & Hcont & Hnext).
  unfold MC.standardize, MC.antithetic_variates in Hdiv, Hcont.
  rewrite Hanti in Hdiv, Hcont.
  repeat apply conj.
  - apply loop_innovation in Hloop. now rewrite length_seq in Hloop.
  - unfold expanded. rewrite length_app, !length_map. lia.
  - exact Hdiv.
  - exact Hcont.
  - exact Hnext.
Qed.

(** The second loop of a two-loop antithetic run of the demonstration
    engine: the estimate it stores is the mean payoff over the drawn 2 x 1
    batch followed by its negation. *)
Lemma C8_antithetic_batch_witness :
  fst (MC.loop_body (Demo.engine [[Fin 1]; [Fin 2]] 2 true false) true 1
         [Loop.tmp (Demo.engine [[Fin 1]; [Fin 2]] 2 true false) true
                   Demo.identity_path Demo.row_sums 0%nat; Fin 0]
         {| MC.innovation := 1%nat; MC.log := [] |})
  = Py.Ok (MC.Next
             [Loop.tmp (Demo.engine [[Fin 1]; [Fin 2]] 2 true false) true
                       Demo.identity_path Demo.row_sums 0%nat;
              Np.mean (map Np.sum ([[Fin 1]; [Fin 2]]
                                   ++ map (map Np.neg) [[Fin 1]; [Fin 2]]))]).
Proof.
  assert (Hfin : Np.eqb (Np.mean (map Np.sum ([[Fin 1]; [Fin 2]]
                                     ++ map (map Np.neg) [[Fin 1]; [Fin 2]])))
                        PInf = false).
  { unfold Np.mean. simpl.
    destruct (Req_dec_T (1 + 1 + 1 + 1) 0) as [E|_]; [lra|reflexivity]. }
  assert (E : MC.loop (Demo.engine [[Fin 1]; [Fin 2]] 2 true false) true (seq 0 1)
                      [Fin 0; Fin 0] Demo.start
              = (Py.Ok (MC.Next
                          [Loop.tmp (Demo.engine [[Fin 1]; [Fin 2]] 2 true false) true
                                    Demo.identity_path Demo.row_sums 0%nat; Fin 0]),
                 {| MC.innovation := 1%nat; MC.log := [] |})).
  { cbn [seq MC.loop].
    rewrite (@Simulation.loop_body_continues
               nat (Demo.engine [[Fin 1]; [Fin 2]] 2 true false) true
               Demo.identity_path Demo.row_sums eq_refl eq_refl
               0%nat [Fin 0; Fin 0] Demo.start Hfin ltac:(simpl; lia)).
    reflexivity. }
  destruct (@C8_antithetic_batch_is_fresh_draw_and_negation
              nat (Demo.engine [[Fin 1]; [Fin 2]] 2 true false) true
              Demo.identity_path Demo.row_sums 1%nat
              _ _ _ _ eq_refl eq_refl eq_refl E) as (_ & _ & _ & Hcont & _).
  exact (Hcont Hfin ltac:(simpl; lia)).
Defined.

(** C8 as stated fails when standardization is enabled too: from the drawn
    batch [[2]] the loop hands [[1]; [-1]] to the path generator, not the
    concatenation [[2]; [-2]]. *)
Lemma C8_counterexample :
  fst (MC.call (Demo.diagnostic_engine [[Fin 2]] 1 true true) Demo.start)
  = Py.Ok (PyTuple ([[Fin 1]; [Fin (-1)]],
                    MC.new_Path Demo.identity_path [[Fin 1]; [Fin (-1)]]
                                (Fin 1) (Fin 1) (Fin 0),
                    [PInf]))
  /\ concatenate [[Fin 2]] (neg2 [[Fin 2]]) = [[Fin 2]; [Fin (-2)]]
  /\ [[Fin 1]; [Fin (-1)]] <> [[Fin 2]; [Fin (-2)]].
Proof.
  repeat split.
  - rewrite Diagnostic.diagnostic_run by lia.
    cbn [MC.standardize MC.antithetic_variates MC._standardization MC._antithetic
         Demo.diagnostic_engine concatenate neg2 map app Np.neg].
    rewrite (@SampleDeviation.standardized_pair 2) by lra. reflexivity.
  - intros H. injection H as H _. lra.
Qed.

(** C9: call() and put() return the same value, array or tuple, and leave
    the innovation instance in the same state, whether trace is True or
    False, from the same state of the innovation instance: the flag only
    changes what is printed. *)
Theorem C9_trace_does_not_change_the_result
    {G : Type} (self : MC.instance G) (w : MC.world G) :
  (fst (MC.call (Loop.with_trace self true) w)
   = fst (MC.call (Loop.with_trace self false) w)
   /\ MC.innovation (snd (MC.call (Loop.with_trace self true) w))
      = MC.innovation (snd (MC.call (Loop.with_trace self false) w)))
  /\ (fst (MC.put (Loop.with_trace self true) w)
      = fst (MC.put (Loop.with_trace self false) w)
      /\ MC.innovation (snd (MC.put (Loop.with_trace self true) w))
         = MC.innovation (snd (MC.put (Loop.with_trace self false) w))).
Proof.
  split.
  - exact (Trace._sim_mc_trace (Loop.with_trace self false) true true w w eq_refl).
  - exact (Trace._sim_mc_trace (Loop.with_trace self false) false true w w eq_refl).
Qed.

(* ================================================================== *)
(** * Further properties of the lattice engine *)

Module PriceBounds.

Import CRRBinomialTreeOption NpFacts LatticeLoops Induction FiniteLattice.
Local Open Scope R_scope.



Section Prices.

Variables S K t r b sigma : R.
Variable n : Z.
Hypothesis Hn : (1 <= n)%Z.
Variable pv : R.
Hypothesis Hp :
  calc_p (lattice S K t r b sigma n "european") (Fin t / of_Z n) = Fin pv.
Hypothesis Hpv : 0 <= pv <= 1.


End Prices.

End PriceBounds.

(* ================================================================== *)
(** * Further properties of the variance-reduction transforms *)

Module Transforms.

Import MonteCarloOption Loop Moments Standardization.
Local Open Scope R_scope.





End Transforms.

(* ================================================================== *)
(** * Array bounds of the backward-induction loops *)

Module Bounds.

Import CRRBinomialTreeOption LatticeLoops.

Section Generic.

Variable f : nat -> npf -> npf -> npf.

(** A sweep over the first [m] nodes leaves the entries from [m] on as
    they were. *)
Lemma skipn_sweep (m i k : nat) (a : vec) :
  (m <= k)%nat -> skipn k (sweep f i m a) = skipn k a.
Proof.
  revert i k a; induction m as [|m IH]; intros i k a Hk.
  - destruct a; reflexivity.
  - destruct a as [|lo [|hi a]]; try reflexivity.
    destruct k as [|k]; [lia|]. cbn [sweep skipn].
    rewrite (IH (S i) k (hi :: a)) by lia. reflexivity.
Qed.

(** The inner loop over [m >= 1] nodes of an array of at most [m] entries
    reads past the end. *)
Lemma for_node_short (m : nat) (pre a : vec) :
  (1 <= m)%nat -> (length a <= m)%nat ->
  Py.for_ (seq (length pre) m) (node f) (pre ++ a) = Py.Raise Py.IndexError.
Proof.
  revert pre a; induction m as [|m IH]; intros pre a Hm Ha; [lia|].
  cbn [seq Py.for_].
  destruct a as [|lo [|hi a]].
  - unfold node, Py.getitem.
    replace (nth_error (pre ++ []) (length pre + 1)) with (@None npf);
      [reflexivity|].
    symmetry. apply nth_error_None. rewrite length_app. simpl. lia.
  - unfold node, Py.getitem.
    replace (nth_error (pre ++ [lo]) (length pre + 1)) with (@None npf);
      [reflexivity|].
    symmetry. apply nth_error_None. rewrite length_app. simpl. lia.
  - rewrite node_app. cbn [Py.bind].
    specialize (IH (pre ++ [f (length pre) lo hi]) (hi :: a)).
    rewrite length_app, <- app_assoc in IH. simpl in IH.
    replace (length pre + 1)%nat with (S (length pre)) in IH by lia.
    apply IH; simpl in Ha; lia.
Qed.

End Generic.

Lemma skipn_descend (g : nat -> vec -> vec) (n k : nat) (a : vec) :
  (forall j x, (j < n)%nat -> skipn k (g j x) = skipn k x) ->
  skipn k (descend g n a) = skipn k a.
Proof.
  revert a; induction n as [|n IH]; intros a Hg; [reflexivity|].
  cbn [descend]. rewrite IH by (intros; apply Hg; lia). apply Hg. lia.
Qed.

Lemma _euro_descend (Df p : npf) (n : Z) (a : vec) :
  (Z.to_nat n < length a)%nat ->
  _euro a n Df p = Py.Ok (descend (euro_pass Df p) (Z.to_nat n) a).
Proof.
  intros H. unfold _euro, arange0.
  apply for_descend with (L := length a); auto.
  - intros; apply length_euro_pass.
  - intros j x Hj Hx. apply euro_step_ok. lia.
Qed.

Lemma _amer_descend (Df p K d S u : npf) (z n : Z) (a : vec) :
  (Z.to_nat n < length a)%nat ->
  _amer a n Df p K d S u z
  = Py.Ok (descend (amer_pass Df p K d S u z) (Z.to_nat n) a).
Proof.
  intros H. unfold _amer, arange0.
  apply for_descend with (L := length a); auto.
  - intros; apply length_amer_pass.
  - intros j x Hj Hx. apply amer_step_ok. lia.
Qed.

Lemma rev_seq_succ (m : nat) : rev (seq 0 (S m)) = m :: rev (seq 0 m).
Proof. rewrite seq_S, rev_app_distr. reflexivity. Qed.

End Bounds.

(* ================================================================== *)
(** * The American lattice with zero volatility *)

Module ZeroVolatilityAmerican.

Import CRRBinomialTreeOption NpFacts LatticeLoops Induction FiniteLattice.
Local Open Scope R_scope.

Lemma sigma0_u_d_one (self : instance) (x : R) :
  _sigma self = Fin 0 -> 0 <= x ->
  calc_u self (Fin x) = Fin 1 /\ calc_d self (Fin x) = Fin 1.
Proof.
  intros Hs Hx.
  assert (Eu : calc_u self (Fin x) = Fin 1).
  { unfold calc_u. rewrite Hs. simpl.
    destruct (Rlt_dec x 0); [lra|]. simpl. f_equal.
    rewrite Rmult_0_l. apply exp_0. }
  split; [exact Eu|]. unfold calc_d. rewrite Eu. simpl.
  destruct (Req_dec_T 1 0); [lra|]. f_equal. field.
Qed.

(** With p not a number, the continuation value of two equal numbers is
    nan: one of the two products is +inf and the other -inf, or both are
    0 times an infinity. *)
Lemma continuation_bad_p_equal (Df p : npf) (c : R) :
  ~ is_finite p -> continuation Df p (Fin c) (Fin c) = NaN.
Proof.
  unfold continuation.
  destruct p as [v| | |]; simpl; try tauto; intros _; unfold signed_inf;
    repeat (match goal with
            | |- context [Rlt_dec ?a ?b] => destruct (Rlt_dec a b); try lra
            end; simpl); reflexivity.
Qed.

Lemma exercise_one (K S : R) (z : Z) (j i : nat) :
  exercise (Fin K) (Fin 1) (Fin S) (Fin 1) z j i = Fin (IZR z * (S - K)).
Proof.
  unfold exercise. rewrite !pow_fin, !pow1. simpl. f_equal. ring.
Qed.

Lemma after_pass_top (g : nat -> vec -> vec) (n : nat) (a0 a : vec) :
  after_pass g n a0 n a -> a = a0.
Proof.
  intros H. inversion H as [|j a' H' Ej Ea]; [reflexivity|].
  apply after_pass_le in H'. lia.
Qed.

(** Every pass of [_amer] writes the exercise value z (S - K) into the
    nodes it visits: the continuation value it is compared with is nan. *)
Lemma sigma0_nodes (Df p : npf) (K S : R) (z : Z) (n : nat) (a0 : vec)
    (j : nat) (a : vec) :
  ~ is_finite p -> Forall (fle (Fin 0)) a0 -> length a0 = Datatypes.S n ->
  after_pass (amer_pass Df p (Fin K) (Fin 1) (Fin S) (Fin 1) z) n a0 j a ->
  length a = Datatypes.S n
  /\ ((j < n)%nat ->
      forall i, (i <= j)%nat -> nth_error a i = Some (Fin (IZR z * (S - K)))).
Proof.
  intros Hp H0 Hlen. induction 1 as [|j a H [IHl IH]].
  - split; [exact Hlen|lia].
  - split; [now rewrite length_amer_pass|]. intros Hj i Hi.
    unfold amer_pass.
    destruct (@nth_error_sweep
                (fun i lo hi => py_max (exercise (Fin K) (Fin 1) (Fin S) (Fin 1) z j i)
                                       (continuation Df p lo hi))
                (j + 1) 0 i a ltac:(lia) ltac:(lia))
      as (lo & hi & Elo & Ehi & E).
    rewrite E, exercise_one. do 2 f_equal.
    assert (Hc : continuation Df p lo hi = NaN).
    { destruct (Nat.eq_dec (Datatypes.S j) n) as [Ej|Ej].
      - subst n. apply after_pass_top in H. subst a.
        rewrite Forall_forall in H0.
        pose proof (H0 _ (nth_error_In _ _ Elo)) as Hlo.
        pose proof (H0 _ (nth_error_In _ _ Ehi)) as Hhi.
        apply continuation_bad_p; auto.
        + destruct lo; simpl in *; tauto.
        + destruct hi; simpl in *; tauto.
      - rewrite (IH ltac:(lia) i ltac:(lia)) in Elo.
        rewrite (IH ltac:(lia) (Datatypes.S i) ltac:(lia)) in Ehi.
        injection Elo as <-. injection Ehi as <-.
        now apply continuation_bad_p_equal. }
    rewrite Hc. reflexivity.
Qed.

(** The American price of a lattice with sigma = 0 and t >= 0 is the
    undiscounted exercise value z (S - K), for every n >= 1. *)
Lemma american_price_sigma0 (S K t r b : R) (z n : Z) :
  0 <= t -> (1 <= n)%Z ->
  _calc_price (lattice S K t r b 0 n "american") z n "american"
  = Py.Ok (PyFloat (Fin (IZR z * (S - K)))).
Proof.
  intros Ht Hn. set (self := lattice S K t r b 0 n "american").
  rewrite _calc_price_american by lia. cbv zeta.
  assert (Hnr : 0 < IZR n) by (apply IZR_lt; lia).
  assert (Hx : (Fin t / of_Z n)%npf = Fin (t / IZR n)).
  { simpl. destruct (Req_dec_T (IZR n) 0); [lra|reflexivity]. }
  change (_t self) with (Fin t). rewrite Hx.
  assert (Hdt : 0 <= t / IZR n).
  { apply Rmult_le_pos; [lra|]. left. now apply Rinv_0_lt_compat. }
  destruct (@sigma0_u_d_one self (t / IZR n) eq_refl Hdt) as [-> ->].
  pose proof (@ZeroVolatility.p_not_finite self eq_refl (t / IZR n)) as Hp.
  set (p := calc_p self (Fin (t / IZR n))) in *.
  set (Df := calc_Df self (Fin (t / IZR n))).
  change (_K self) with (Fin K). change (_S self) with (Fin S).
  set (m := Z.to_nat n).
  assert (En : n = Z.of_nat m) by lia.
  assert (Hm : (0 < m)%nat) by lia. clearbody m. rewrite En.
  rewrite _amer_ok by (rewrite length_terminal; lia). cbn [Py.bind].
  set (a0 := terminal self z (Z.of_nat m) (Fin 1) (Fin 1)).
  set (g := amer_pass Df p (Fin K) (Fin 1) (Fin S) (Fin 1) z).
  assert (H0 : Forall (fle (Fin 0)) a0)
    by (eapply WellPosed.terminal_nonneg; reflexivity).
  assert (Hlast : after_pass g m a0 0 (descend g m a0)).
  { destruct (@after_pass_reaches g m a0 0 ltac:(lia)) as [a Ha].
    pose proof (after_pass_descend Ha) as E. simpl in E. now rewrite <- E. }
  destruct (@sigma0_nodes Df p K S z m a0 0%nat _ Hp H0
              ltac:(apply length_terminal) Hlast) as [_ Hnodes].
  unfold Py.getitem. rewrite (Hnodes Hm 0%nat ltac:(lia)). reflexivity.
Qed.

End ZeroVolatilityAmerican.

(* ================================================================== *)
(** * What a run prints *)

Module TraceLog.

Import MonteCarloOption Loop Report Simulation SimulationLoop.

(** Adding the zeros of the unfilled part of [iteration] changes no sum. *)
Lemma add_zero_r (x : npf) : (x + Fin 0)%npf = x.
Proof. destruct x; simpl; try reflexivity. f_equal. apply Rplus_0_r. Qed.

Lemma fold_add_zeros (k : nat) (x : npf) :
  fold_left Np.add (repeat (Fin 0) k) x = x.
Proof.
  induction k as [|k IH]; simpl; [reflexivity|]. now rewrite add_zero_r.
Qed.

Lemma sum_app_zeros (l : vec) (k : nat) : Np.sum (l ++ repeat (Fin 0) k) = Np.sum l.
Proof. unfold Np.sum. rewrite fold_left_app. apply fold_add_zeros. Qed.

Section Run.

Context {G : Type}.
Variable self : instance G.
Variable call : bool.
Variable P : PathClass.
Variable Y : PayoffClass.
Hypothesis HP : _Path self = Some P.
Hypothesis HY : _Payoff self = Some Y.

Lemma estimates_succ (m : nat) (g : G) :
  estimates self call P Y (S m) g
  = tmp self call P Y g :: estimates self call P Y m (advance self g).
Proof. apply means_shift. Qed.

Lemma length_estimates (m : nat) (g : G) :
  length (estimates self call P Y m g) = m.
Proof. unfold estimates. now rewrite length_map, length_seq. Qed.

Lemma firstn_estimates (k m : nat) (g : G) :
  (k <= m)%nat ->
  firstn k (estimates self call P Y m g) = estimates self call P Y k g.
Proof.
  revert m g; induction k as [|k IH]; intros m g H; [reflexivity|].
  destruct m as [|m]; [lia|].
  rewrite !estimates_succ. cbn [firstn]. f_equal. apply IH. lia.
Qed.

(** The loop with the exact log: each completed loop prints, when trace is
    on, its index, its estimate and [np.sum(iteration) / (i + 1)] for the
    array as it stands after the loop's assignment. *)
Lemma loop_log (m : nat) (pre rest : vec) (w : world G) :
  (m <= length rest)%nat ->
  (forall i, (i < m)%nat ->
     Np.eqb (tmp self call P Y (state_at self i (innovation w))) PInf = false) ->
  loop self call (seq (length pre) m) (pre ++ rest) w
  = (Py.Ok (Next (pre ++ estimates self call P Y m (innovation w) ++ skipn m rest)),
     {| innovation := state_at self m (innovation w);
        log := log w ++
               if _trace self
               then map (fun i =>
                      PrintLoop (length pre + i)
                        (tmp self call P Y (state_at self i (innovation w)))
                        (Np.sum (pre
                                 ++ estimates self call P Y (i + 1) (innovation w)
                                 ++ skipn (i + 1) rest)
                         / of_nat (length pre + i + 1)))
                    (seq 0 m)
               else [] |}).
Proof.
  revert pre rest w; induction m as [|m IH]; intros pre rest w Hm Hfin.
  - destruct w. cbn. destruct (_trace self); now rewrite app_nil_r.
  - destruct rest as [|y rest]; simpl in Hm; [lia|].
    assert (H0 : Np.eqb (tmp self call P Y (innovation w)) PInf = false)
      by (apply (Hfin 0%nat); lia).
    change (seq (length pre) (S m)) with (length pre :: seq (S (length pre)) m).
    cbn [loop].
    rewrite (@loop_body_continues G self call P Y HP HY) by
      (auto; rewrite length_app; simpl; lia).
    rewrite update_app.
    set (x := tmp self call P Y (innovation w)).
    set (w1 := {| innovation := advance self (innovation w); log := _ |}).
    specialize (IH (pre ++ [x]) rest w1 ltac:(lia)).
    rewrite length_app in IH. cbn [length] in IH.
    rewrite Nat.add_1_r, <- app_assoc in IH. cbn [app] in IH.
    rewrite IH.
    2:{ intros i Hi. unfold w1; cbn [innovation].
        rewrite <- state_at_succ. apply Hfin. lia. }
    unfold w1; cbn [innovation log].
    rewrite estimates_succ, <- state_at_succ. fold x.
    rewrite <- !app_assoc. cbn [app skipn].
    do 3 f_equal.
    destruct (_trace self); [|reflexivity].
    cbn [seq map app]. f_equal.
    + rewrite Nat.add_0_r. reflexivity.
    + rewrite <- seq_shift, map_map. apply map_ext. intros i.
      rewrite <- state_at_succ.
      replace (estimates self call P Y (S i + 1) (innovation w))
        with (x :: estimates self call P Y (i + 1) (advance self (innovation w)))
        by (symmetry; apply estimates_succ).
      rewrite <- !app_assoc. cbn [app skipn Nat.add].
      replace (length pre + S i)%nat with (S (length pre + i)) by lia.
      reflexivity.
Qed.

End Run.

End TraceLog.

Module RunReport.

Import MonteCarloOption Loop Report Simulation SimulationLoop TraceLog.

Lemma skipn_repeat {A : Type} (x : A) (k m : nat) :
  skipn k (repeat x m) = repeat x (m - k).
Proof.
  revert m; induction k as [|k IH]; intros m.
  - now rewrite Nat.sub_0_r.
  - destruct m as [|m]; [reflexivity|]. cbn [repeat skipn]. apply IH.
Qed.

Section Run.

Context {G : Type}.
Variable self : instance G.
Variable call : bool.
Variable P : PathClass.
Variable Y : PayoffClass.
Hypothesis HP : _Path self = Some P.
Hypothesis HY : _Payoff self = Some Y.
Hypothesis Hloops : (0 <= _mc_loops self)%Z.

(** A run in which no loop hits [+inf]: the value returned, the state the
    innovation instance is left in, and everything printed. *)
Lemma _sim_mc_report (w : world G) :
  (forall i, (i < Z.to_nat (_mc_loops self))%nat ->
     Np.eqb (tmp self call P Y (state_at self i (innovation w))) PInf = false) ->
  _sim_mc self call w
  = (Py.Ok (PyArray (estimates self call P Y (Z.to_nat (_mc_loops self))
                               (innovation w))),
     {| innovation := state_at self (Z.to_nat (_mc_loops self)) (innovation w);
        log := log w
               ++ (if _trace self
                   then [PrintHeader; PrintLoopNo]
                        ++ trace_lines self call P Y (Z.to_nat (_mc_loops self))
                                       (innovation w)
                   else [])
               ++ [PrintNewline] |}).
Proof.
  intros Hfin. unfold _sim_mc.
  rewrite (@SimulationRun.header_world G self),
          (@SimulationRun.zeros_ok G self Hloops).
  pose proof (@loop_log G self call P Y HP HY (Z.to_nat (_mc_loops self)) []
                (repeat (Fin 0) (Z.to_nat (_mc_loops self)))
                {| innovation := innovation w; log := log w ++ header self |}
                ltac:(now rewrite repeat_length) Hfin) as E.
  cbn [length app innovation log Nat.add] in E.
  unfold arange0. rewrite E. unfold emit. cbn [innovation log].
  rewrite skipn_all2 by (rewrite repeat_length; lia).
  rewrite app_nil_r. do 2 f_equal.
  unfold header, trace_lines. destruct (_trace self).
  - rewrite <- !app_assoc. cbn [app].
    erewrite map_ext; [reflexivity|]. intros i. cbv beta.
    rewrite skipn_repeat, sum_app_zeros. unfold Np.mean.
    now rewrite length_estimates.
  - now rewrite !app_nil_r.
Qed.

End Run.

End RunReport.

(* ================================================================== *)
(** * The European lattice in closed form *)

Module ClosedForm.

Import CRRBinomialTreeOption NpFacts LatticeLoops FiniteLattice.
Local Open Scope R_scope.

(** *** The backward step on lists and on functions of the node index *)






(** *** Linearity and the value of the underlying *)





End ClosedForm.

Module Parity.

Import CRRBinomialTreeOption NpFacts LatticeLoops FiniteLattice ClosedForm.
Local Open Scope R_scope.







End Parity.

(* ================================================================== *)
(** * The American call without early exercise *)

Module NoEarlyExercise.

Import CRRBinomialTreeOption NpFacts LatticeLoops Induction FiniteLattice
       ClosedForm Parity.
Local Open Scope R_scope.

(** *** Arrays whose first nodes hold known numbers *)




(** *** The European value is never below the exercise value of a call *)




Section Call.

Variables A B u d D pv Eg : R.
Variable n : nat.
Hypothesis HA : 0 <= A.
Hypothesis HB : 0 <= B.
Hypothesis Hu : 0 < u.
Hypothesis Hd : 0 < d.
Hypothesis HD : 0 <= D <= 1.
Hypothesis HDE : 1 <= D * Eg.
Hypothesis Hpv : 0 <= pv <= 1.
Hypothesis HE : pv * u + (1 - pv) * d = Eg.





End Call.


End NoEarlyExercise.

(* ================================================================== *)
(** * The root of the American lattice *)

Module RootNode.

Import CRRBinomialTreeOption LatticeLoops.

(** Python's [max(a, c)] is never below its first argument: it is [a]
    unless [c > a]. *)
Lemma ltb_py_max (a c : npf) : Np.ltb (py_max a c) a = false.
Proof.
  unfold py_max. destruct (Np.ltb a c) eqn:E.
  - destruct a as [x| | |], c as [y| | |]; simpl in *; try reflexivity;
      try discriminate.
    destruct (Rlt_dec x y); [|discriminate].
    destruct (Rlt_dec y x); [lra|reflexivity].
  - destruct a as [x| | |]; simpl; try reflexivity.
    destruct (Rlt_dec x x); [lra|reflexivity].
Qed.

(** [max(a, c)] is nan only when [a] is. *)
Lemma py_max_nan (a c : npf) : py_max a c = NaN -> a = NaN.
Proof.
  unfold py_max. destruct (Np.ltb a c) eqn:E; [|auto].
  intros ->. destruct a; discriminate.
Qed.

(** The last pass of [_amer] writes into node 0 the larger of the exercise
    value of the root and its continuation value. *)
Lemma amer_root (Df p K d S u : npf) (z : Z) (m : nat) (a : vec) :
  (Datatypes.S m < length a)%nat ->
  exists lo hi,
    nth_error (descend (amer_pass Df p K d S u z) (Datatypes.S m) a) 0
    = Some (py_max (exercise K d S u z 0 0) (continuation Df p lo hi)).
Proof.
  revert a; induction m as [|m IH]; intros a Hlen.
  - destruct a as [|lo [|hi a]]; simpl in Hlen; try lia.
    exists lo, hi. reflexivity.
  - change (descend (amer_pass Df p K d S u z) (Datatypes.S (Datatypes.S m)) a)
      with (descend (amer_pass Df p K d S u z) (Datatypes.S m)
              (amer_pass Df p K d S u z (Datatypes.S m) a)).
    apply IH. rewrite length_amer_pass. lia.
Qed.

Lemma american_root (self : instance) (z n : Z) :
  (1 <= n)%Z ->
  let dt := (_t self / of_Z n)%npf in
  exists lo hi,
    _calc_price self z n "american"
    = Py.Ok (PyFloat
               (py_max (exercise (_K self) (calc_d self dt) (_S self)
                                 (calc_u self dt) z 0 0)
                       (continuation (calc_Df self dt) (calc_p self dt) lo hi))).
Proof.
  intros Hn dt. rewrite _calc_price_american by lia. cbv zeta. fold dt.
  set (m := Z.to_nat n).
  assert (En : n = Z.of_nat m) by lia.
  assert (Hm : (1 <= m)%nat) by lia. clearbody m. subst n.
  rewrite _amer_ok by (rewrite length_terminal; lia). cbn [Py.bind].
  destruct m as [|m]; [lia|].
  destruct (@amer_root (calc_Df self dt) (calc_p self dt) (_K self)
              (calc_d self dt) (_S self) (calc_u self dt) z m
              (terminal self z (Z.of_nat (Datatypes.S m))
                        (calc_u self dt) (calc_d self dt)))
    as (lo & hi & E).
  { rewrite length_terminal. lia. }
  exists lo, hi. unfold Py.getitem. rewrite E. reflexivity.
Qed.

End RootNode.

(* ================================================================== *)
(** * Further properties: statements *)





(** X3: for every parameter set, finite or not, with n >= 1, call() and
    put() of an American-style object return Python's max of the exercise
    value of the root, z (S u^0 d^0 - K), and a continuation value: the
    price is that exercise value unless the continuation value is strictly
    greater.  So the price is never below the value of exercising at once
    ([price < exercise] is false), and it is nan only if the exercise value
    is: never when S and K are numbers.  Only the comparison made by [max]
    is used, no property of the arithmetic. *)
Theorem X3_american_price_at_least_immediate_exercise
    (S K t r b sigma : npf) (n : Z) :
  (1 <= n)%Z ->
  exists c q,
    CRR.call (CRR.mk S K t r b sigma n "american") = Py.Ok (PyFloat c)
    /\ CRR.put (CRR.mk S K t r b sigma n "american") = Py.Ok (PyFloat q)
    /\ Np.ltb c (of_Z 1 * (S * Fin 1 * Fin 1 - K))%npf = false
    /\ Np.ltb q (of_Z (-1) * (S * Fin 1 * Fin 1 - K))%npf = false
    /\ (is_finite S -> is_finite K -> c <> NaN /\ q <> NaN).
Proof.
  intros Hn.
  destruct (@RootNode.american_root (CRR.mk S K t r b sigma n "american") 1 n Hn)
    as (lo1 & hi1 & Ec).
  destruct (@RootNode.american_root (CRR.mk S K t r b sigma n "american") (-1) n Hn)
    as (lo2 & hi2 & Eq).
  do 2 eexists. split; [exact Ec|]. split; [exact Eq|].
  split; [apply RootNode.ltb_py_max|]. split; [apply RootNode.ltb_py_max|].
  intros HS HK. destruct S as [s| | |], K as [k| | |]; simpl in HS, HK; try tauto.
  split; intros E; apply RootNode.py_max_nan in E; discriminate.
Qed.

(** A three-step American lattice: the call is not below 60 - 50, the put
    not below 50 - 60. *)
Lemma X3_american_price_witness :
  exists c q,
    CRR.call (lattice 60 50 1 (1/10) 0 (4/10) 3 "american") = Py.Ok (PyFloat c)
    /\ CRR.put (lattice 60 50 1 (1/10) 0 (4/10) 3 "american") = Py.Ok (PyFloat q)
    /\ Np.ltb c (of_Z 1 * (Fin 60 * Fin 1 * Fin 1 - Fin 50))%npf = false
    /\ Np.ltb q (of_Z (-1) * (Fin 60 * Fin 1 * Fin 1 - Fin 50))%npf = false.
Proof.
  destruct (@X3_american_price_at_least_immediate_exercise
              (Fin 60) (Fin 50) (Fin 1) (Fin (1/10)) (Fin 0) (Fin (4/10)) 3
              ltac:(lia)) as (c & q & Hc & Hq & Hc1 & Hq1 & _).
  exists c, q. exact (conj Hc (conj Hq (conj Hc1 Hq1))).
Defined.

(** X4: with sigma = 0, t >= 0 and n >= 1 the American-style price is the
    undiscounted exercise value: S - K for call(), K - S for put(), negative
    when the option is out of the money.  The continuation value of every
    node is nan, and Python's max(exercise, nan) is the exercise value. *)
Theorem X4_american_zero_volatility_price (S K t r b : R) (n : Z) :
  (0 <= t)%R -> (1 <= n)%Z ->
  CRR.call (lattice S K t r b 0 n "american") = Py.Ok (PyFloat (Fin (S - K)))
  /\ CRR.put (lattice S K t r b 0 n "american") = Py.Ok (PyFloat (Fin (K - S))).
Proof.
  intros Ht Hn. rewrite call_is_calc_price, put_is_calc_price.
  rewrite !ZeroVolatilityAmerican.american_price_sigma0 by assumption.
  split; do 3 f_equal; ring.
Qed.

(** An out-of-the-money American call with sigma = 0 is priced at -10. *)
Lemma X4_american_zero_volatility_witness :
  CRR.call (lattice 40 50 1 (1/10) (1/10) 0 5 "american")
  = Py.Ok (PyFloat (Fin (40 - 50)))
  /\ CRR.put (lattice 40 50 1 (1/10) (1/10) 0 5 "american")
     = Py.Ok (PyFloat (Fin (50 - 40))).
Proof.
  exact (@X4_american_zero_volatility_price
           40 50 1 (1/10) (1/10) 5 ltac:(lra) ltac:(lia)).
Defined.

(** X5: on an array with more than n entries, [_euro] and [_amer] raise
    nothing, return an array of the same length, and leave every entry from
    index n on as it was: the payoff of the top terminal node is never
    overwritten. *)
Theorem X5_backward_induction_in_bounds
    (OptionValue : vec) (n : Z) (Df p K d S u : npf) (z : Z) :
  (Z.to_nat n < length OptionValue)%nat ->
  (exists a, CRR._euro OptionValue n Df p = Py.Ok a
             /\ length a = length OptionValue
             /\ skipn (Z.to_nat n) a = skipn (Z.to_nat n) OptionValue)
  /\ (exists a, CRR._amer OptionValue n Df p K d S u z = Py.Ok a
                /\ length a = length OptionValue
                /\ skipn (Z.to_nat n) a = skipn (Z.to_nat n) OptionValue).
Proof.
  intros H. split; eexists.
  - split; [now apply Bounds._euro_descend|]. split.
    + apply length_descend. intros; apply LatticeLoops.length_euro_pass.
    + apply Bounds.skipn_descend. intros j x Hj.
      apply Bounds.skipn_sweep. lia.
  - split; [now apply Bounds._amer_descend|]. split.
    + apply length_descend. intros; apply LatticeLoops.length_amer_pass.
    + apply Bounds.skipn_descend. intros j x Hj.
      apply Bounds.skipn_sweep. lia.
Qed.

Lemma X5_backward_induction_witness :
  exists a, CRR._euro [Fin 1; Fin 2; Fin 3] 2 (Fin 1) (Fin (1/2)) = Py.Ok a
            /\ length a = 3%nat /\ skipn 2 a = [Fin 3].
Proof.
  exact (proj1 (@X5_backward_induction_in_bounds
                  [Fin 1; Fin 2; Fin 3] 2 (Fin 1) (Fin (1/2))
                  (Fin 0) (Fin 1) (Fin 1) (Fin 1) 1 ltac:(simpl; lia))).
Defined.

(** X6: for n >= 1, on an array with at most n entries [_euro] and
    [_amer] raise IndexError: the first pass reads one entry past the end. *)
Theorem X6_backward_induction_out_of_bounds
    (OptionValue : vec) (n : Z) (Df p K d S u : npf) (z : Z) :
  (1 <= n)%Z -> (length OptionValue <= Z.to_nat n)%nat ->
  CRR._euro OptionValue n Df p = Py.Raise Py.IndexError
  /\ CRR._amer OptionValue n Df p K d S u z = Py.Raise Py.IndexError.
Proof.
  intros Hn Hlen. unfold CRR._euro, CRR._amer, arange0.
  destruct (Z.to_nat n) as [|m] eqn:Em; [lia|].
  rewrite Bounds.rev_seq_succ. cbn [Py.for_].
  unfold CRR.euro_step, CRR.amer_step. rewrite arange0_succ.
  replace (m + 1)%nat with (Datatypes.S m) by lia.
  change (CRR.euro_node Df p) with (node (fun _ : nat => continuation Df p)).
  change (CRR.amer_node Df p K d S u z m)
    with (node (fun i lo hi => py_max (CRR.exercise K d S u z m i)
                                      (continuation Df p lo hi))).
  split.
  - rewrite (@Bounds.for_node_short _ (Datatypes.S m) [] OptionValue) by lia.
    reflexivity.
  - rewrite (@Bounds.for_node_short _ (Datatypes.S m) [] OptionValue) by lia.
    reflexivity.
Qed.

Lemma X6_backward_induction_witness :
  CRR._euro [Fin 1; Fin 2] 2 (Fin 1) (Fin (1/2)) = Py.Raise Py.IndexError
  /\ CRR._amer [Fin 1; Fin 2] 2 (Fin 1) (Fin (1/2)) (Fin 0) (Fin 1) (Fin 1) (Fin 1) 1
     = Py.Raise Py.IndexError.
Proof.
  exact (@X6_backward_induction_out_of_bounds
           [Fin 1; Fin 2] 2 (Fin 1) (Fin (1/2)) (Fin 0) (Fin 1) (Fin 1) (Fin 1) 1
           ltac:(lia) ltac:(simpl; lia)).
Defined.



(** X9: everything a completed run prints.  With trace on: the header, the
    column titles, then for loop i its index, its estimate and the mean of
    the estimates of loops 0..i (np.sum(iteration) / (i + 1)), and a final
    newline.  With trace off the run still prints that one newline. *)
Theorem X9_printed_output_of_a_completed_run
    {G : Type} (self : MC.instance G) (call : bool)
    (P : MC.PathClass) (Y : MC.PayoffClass) (w : MC.world G) :
  MC._Path self = Some P -> MC._Payoff self = Some Y ->
  (0 <= MC._mc_loops self)%Z ->
  (forall i, (i < Z.to_nat (MC._mc_loops self))%nat ->
     Loop.tmp self call P Y (Loop.state_at self i (MC.innovation w)) <> PInf) ->
  MC.log (snd (MC._sim_mc self call w))
  = MC.log w
    ++ (if MC._trace self
        then [MC.PrintHeader; MC.PrintLoopNo]
             ++ map (fun i =>
                  MC.PrintLoop i
                    (Loop.tmp self call P Y (Loop.state_at self i (MC.innovation w)))
                    (Np.mean (map (fun k => Loop.tmp self call P Y
                                     (Loop.state_at self k (MC.innovation w)))
                                  (seq 0 (i + 1)))))
                 (seq 0 (Z.to_nat (MC._mc_loops self)))
        else [])
    ++ [MC.PrintNewline].
Proof.
  intros HP HY Hloops Hfin.
  rewrite (@RunReport._sim_mc_report G self call P Y HP HY Hloops w).
  - reflexivity.
  - intros i Hi. apply eqb_PInf_false. now apply Hfin.
Qed.

(** A traced two-loop run on the constant batch [[1]] prints the header,
    two loop lines with estimate 1 and running mean 1, and the newline. *)
Lemma X9_printed_output_witness :
  MC.log (snd (MC._sim_mc (Loop.with_trace (Demo.engine [[Fin 1]] 2 false false) true)
                          true Demo.start))
  = [MC.PrintHeader; MC.PrintLoopNo;
     MC.PrintLoop 0 (Fin 1) (Fin 1); MC.PrintLoop 1 (Fin 1) (Fin 1);
     MC.PrintNewline].
Proof.
  assert (E : forall g : nat,
             Loop.tmp (Loop.with_trace (Demo.engine [[Fin 1]] 2 false false) true)
                      true Demo.identity_path Demo.row_sums g = Fin 1).
  { intros g. unfold Loop.tmp, Np.mean. simpl.
    destruct (Req_dec_T 1 0) as [E0|_]; [lra|]. f_equal. lra. }
  rewrite (@X9_printed_output_of_a_completed_run
             nat (Loop.with_trace (Demo.engine [[Fin 1]] 2 false false) true) true
             Demo.identity_path Demo.row_sums Demo.start
             eq_refl eq_refl ltac:(cbn; lia)).
  - change (MC._trace (Loop.with_trace (Demo.engine [[Fin 1]] 2 false false) true))
      with true.
    change (Z.to_nat (MC._mc_loops
              (Loop.with_trace (Demo.engine [[Fin 1]] 2 false false) true)))
      with 2%nat.
    cbn [Demo.start MC.log MC.innovation app Nat.add seq map].
    rewrite !E. unfold Np.mean. simpl.
    destruct (Req_dec_T 1 0) as [E0|_]; [lra|].
    destruct (Req_dec_T (1 + 1) 0) as [E0|_]; [lra|].
    repeat f_equal; lra.
  - intros i _. rewrite E. discriminate.
Defined.

(** X10: a second run on the same object goes on drawing where the first
    one stopped.  After a completed run of mc_loops loops, the estimates of
    the next run (call or put) are those of draws mc_loops, mc_loops + 1,
    ... of the innovation instance: put() after call() does not price on the
    random numbers call() used. *)
Theorem X10_next_run_continues_the_innovation_stream
    {G : Type} (self : MC.instance G) (first second : bool)
    (P : MC.PathClass) (Y : MC.PayoffClass) (w : MC.world G) :
  MC._Path self = Some P -> MC._Payoff self = Some Y ->
  (0 <= MC._mc_loops self)%Z ->
  (forall i, (i < Z.to_nat (MC._mc_loops self))%nat ->
     Loop.tmp self first P Y (Loop.state_at self i (MC.innovation w)) <> PInf) ->
  (forall i, (i < Z.to_nat (MC._mc_loops self))%nat ->
     Loop.tmp self second P Y
       (Loop.state_at self (Z.to_nat (MC._mc_loops self) + i) (MC.innovation w))
     <> PInf) ->
  fst (MC._sim_mc self second (snd (MC._sim_mc self first w)))
  = Py.Ok (PyArray
             (map (fun i =>
                     Loop.tmp self second P Y
                       (Loop.state_at self (Z.to_nat (MC._mc_loops self) + i)
                                      (MC.innovation w)))
                  (seq 0 (Z.to_nat (MC._mc_loops self))))).
Proof.
  intros HP HY Hloops H1 H2.
  assert (Hiter : forall i g,
             Loop.state_at self i
               (Loop.state_at self (Z.to_nat (MC._mc_loops self)) g)
             = Loop.state_at self (Z.to_nat (MC._mc_loops self) + i) g).
  { intros i g. unfold Loop.state_at.
    rewrite (Nat.add_comm _ i). symmetry. apply Nat.iter_add. }
  rewrite (@RunReport._sim_mc_report G self first P Y HP HY Hloops w)
    by (intros i Hi; apply eqb_PInf_false; now apply H1).
  cbn [snd].
  rewrite (@RunReport._sim_mc_report G self second P Y HP HY Hloops).
  - cbn [fst MC.innovation]. unfold Report.estimates.
    do 2 f_equal. apply map_ext. intros i. now rewrite Hiter.
  - cbn [MC.innovation]. intros i Hi. apply eqb_PInf_false.
    rewrite Hiter. now apply H2.
Qed.

(** put() after call() on a two-loop engine: the estimates are those of
    draws 2 and 3. *)
Lemma X10_next_run_witness :
  fst (MC._sim_mc (Demo.engine [[Fin 1]] 2 false false) false
         (snd (MC._sim_mc (Demo.engine [[Fin 1]] 2 false false) true Demo.start)))
  = Py.Ok (PyArray
             (map (fun i =>
                     Loop.tmp (Demo.engine [[Fin 1]] 2 false false) false
                       Demo.identity_path Demo.row_sums
                       (Loop.state_at (Demo.engine [[Fin 1]] 2 false false)
                                      (2 + i) 0%nat))
                  (seq 0 2))).
Proof.
  assert (E : forall (c : bool) (g : nat),
             Loop.tmp (Demo.engine [[Fin 1]] 2 false false)
                      c Demo.identity_path Demo.row_sums g = Fin 1).
  { intros c g. unfold Loop.tmp, Np.mean. destruct c; simpl.
    - destruct (Req_dec_T 1 0) as [E0|_]; [lra|]. f_equal. lra.
    - destruct (Req_dec_T 1 0) as [E0|_]; [lra|]. f_equal. lra. }
  apply (@X10_next_run_continues_the_innovation_stream
           nat (Demo.engine [[Fin 1]] 2 false false) true false
           Demo.identity_path Demo.row_sums Demo.start
           eq_refl eq_refl ltac:(cbn; lia)).
  - intros i _. rewrite E. discriminate.
  - intros i _. rewrite E. discriminate.
Defined.


